(** * camelbot: the control-inventory extractor (scrap.py) and the
      chat-completion caller (llm.py)

    A shallow embedding of the two scripts.  Python [str] values are
    sequences of Unicode code points, [dict] values are insertion-ordered
    association lists updated through [dict_set], and the only statement
    of scrap.py that can raise on a parsed tree (calling [.lower()] on a
    list-valued attribute) is threaded through a small error monad. *)

From Stdlib Require Import ZArith NArith List Bool Lia String Ascii.
From stdpp Require Import base option list sorting gmap.

Local Open Scope Z_scope.
Local Set Warnings "-clear-no-such-hyp".

(** ** Python strings *)

Module PyStr.

(** One Unicode code point: what [len], indexing and slicing of a Python
    [str] count. *)
Abbreviation codepoint := N (only parsing).
Abbreviation pystr := (list N) (only parsing).

(** An ASCII literal of the source as a code-point sequence. *)
Definition lit (s : string) : pystr :=
  map (fun a => N_of_ascii a) (list_ascii_of_string s).

Arguments lit : simpl never.

(** A literal that holds double quotes, written with the apostrophe in
    their place. *)
Definition dq (s : string) : pystr :=
  map (fun c => if (c =? 39)%N then 34%N else c) (lit s).

Definition py_len (s : pystr) : Z := Z.of_nat (length s).

(** [str.isspace] on one code point: the characters [str.split()] and
    [str.strip()] treat as white space. *)
Definition py_isspace (c : codepoint) : bool :=
  ((9 <=? c) && (c <=? 13) || (28 <=? c) && (c <=? 32)
   || (c =? 133) || (c =? 160) || (c =? 5760)
   || (8192 <=? c) && (c <=? 8202)
   || (c =? 8232) || (c =? 8233) || (c =? 8239) || (c =? 8287)
   || (c =? 12288))%N.

(** [str.lower] on one code point.  ASCII capitals are mapped to their
    small letters; code points from 128 on are left as they are.  Python
    lowercases those as well, but no code point outside ASCII lowercases
    to a sequence of the letters of "true" or "hidden", which are the only
    strings the source compares a lowered string with. *)
Definition lower_char (c : codepoint) : codepoint :=
  if ((65 <=? c) && (c <=? 90))%N then (c + 32)%N else c.

Definition py_lower (s : pystr) : pystr := map lower_char s.

(** [s.startswith(p)] *)
Fixpoint py_startswith (p s : pystr) : bool :=
  match p, s with
  | [], _ => true
  | _ :: _, [] => false
  | a :: p', b :: s' => (a =? b)%N && py_startswith p' s'
  end.

(** [sep.join(parts)] *)
Fixpoint py_join (sep : pystr) (parts : list pystr) : pystr :=
  match parts with
  | [] => []
  | [p] => p
  | p :: rest => p ++ sep ++ py_join sep rest
  end.

Fixpoint lstrip (s : pystr) : pystr :=
  match s with
  | [] => []
  | c :: s' => if py_isspace c then lstrip s' else s
  end.

Definition rstrip (s : pystr) : pystr := rev (lstrip (rev s)).

(** [s.strip()] *)
Definition py_strip (s : pystr) : pystr := rstrip (lstrip s).

(** [s.split()]: the maximal runs of non-space characters, in order.
    [cur] is the run being read, last character first. *)
Fixpoint split_from (cur : pystr) (s : pystr) : list pystr :=
  match s with
  | [] => match cur with [] => [] | _ => [rev cur] end
  | c :: s' =>
      if py_isspace c
      then match cur with
           | [] => split_from [] s'
           | _ => rev cur :: split_from [] s'
           end
      else split_from (c :: cur) s'
  end.

Definition py_split (s : pystr) : list pystr := split_from [] s.

(** [s[:stop]] for an integer [stop]: a negative [stop] counts from the
    end, and the bound is clipped to [0 .. len(s)]. *)
Definition slice_to (s : pystr) (stop : Z) : pystr :=
  let n := py_len s in
  let stop' := if stop <? 0 then Z.max 0 (stop + n) else Z.min stop n in
  take (Z.to_nat stop') s.

(** Truthiness of a [str], a [list] or a [dict]: only the empty one is
    false. *)
Definition truthy {A} (s : list A) : bool :=
  match s with [] => false | _ => true end.

End PyStr.
Export PyStr.

(** ** Python dictionaries

    A [dict] keeps its keys in insertion order, and that order is what
    [json.dumps] writes; a dictionary is therefore a list of key-value
    pairs without repeated keys. *)

Module PyDict.

Definition dict (V : Type) := list (pystr * V).

(** [d.get(k)] *)
Fixpoint dict_get {V} (d : dict V) (k : pystr) : option V :=
  match d with
  | [] => None
  | (k', v) :: d' => if decide (k' = k) then Some v else dict_get d' k
  end.

(** [d[k] = v]: an existing key keeps its place and takes the new value,
    a new key goes last. *)
Fixpoint dict_set {V} (d : dict V) (k : pystr) (v : V) : dict V :=
  match d with
  | [] => [(k, v)]
  | (k', v') :: d' =>
      if decide (k' = k) then (k', v) :: d' else (k', v') :: dict_set d' k v
  end.

Definition keys {V} (d : dict V) : list pystr := map fst d.

(** The invariant of every Python dictionary. *)
Definition dict_wf {V} (d : dict V) : Prop := NoDup (keys d).

End PyDict.
Export PyDict.

(** ** Exceptions *)

Inductive exn := AttributeError | TypeError | KeyError | IndexError.

Inductive result (A : Type) :=
| Ok (a : A)
| Raise (e : exn).
Arguments Ok {A} a.
Arguments Raise {A} e.

Definition bind {A B} (r : result A) (k : A -> result B) : result B :=
  match r with
  | Ok a => k a
  | Raise e => Raise e
  end.

Notation "x <-! r ; k" := (bind r (fun x => k))
  (at level 100, r at next level, right associativity).

(** ** The parsed document (what BeautifulSoup hands to scrap.py) *)

Module Soup.

(** The value of an attribute in [el.attrs]: a string, a list for the
    multi-valued attributes (class, rel, headers, ...), or [None]. *)
Inductive attr_value :=
| AttrNone
| AttrStr (s : pystr)
| AttrList (l : list (option pystr)).

(** The classes of strings other than [NavigableString], [CData] and
    [Comment]: the classes the tree builder gives to the text inside
    [template], [rt], [rp], [style] and [script] elements, and those of
    a doctype, a declaration and a processing instruction. *)
Inductive string_class :=
| TemplateString
| RubyTextString
| RubyParenthesisString
| Stylesheet
| Script
| Doctype
| Declaration
| ProcessingInstruction.

#[global] Instance string_class_eq_dec : EqDecision string_class.
Proof. solve_decision. Defined.

(** A node of the tree: an element with its attributes and children, a
    text node (a [NavigableString] or a [CData], which no function of the
    program tells apart), a comment, or a string of one of the other
    classes. *)
#[warnings="-register-all"]
Inductive node :=
| Tag (name : pystr) (attrs : dict attr_value) (children : list node)
| NavigableString (s : pystr)
| Comment (s : pystr)
| OtherString (cls : string_class) (s : pystr).

(** An element as the loop of [extract_controls_inventory] sees it. *)
Record element := mkElement {
  el_name : pystr;
  el_attrs : dict attr_value;
  el_children : list node
}.

(** [el.get(k)] *)
Definition el_get (el : element) (k : pystr) : option attr_value :=
  dict_get (el_attrs el) k.

(** The start tag of an element: its name and attributes. *)
Definition el_head (el : element) : pystr * dict attr_value :=
  (el_name el, el_attrs el).

(** [tag.descendants] restricted to elements: every element below the
    given nodes, a parent before its children, siblings left to right. *)
Fixpoint descendant_tags_of (n : node) : list element :=
  match n with
  | Tag nm a ch => mkElement nm a ch :: flat_map descendant_tags_of ch
  | _ => []
  end.

Definition descendant_tags (ns : list node) : list element :=
  flat_map descendant_tags_of ns.

(** The text nodes below the given nodes, in document order. *)
Fixpoint descendant_strings_of (n : node) : list pystr :=
  match n with
  | Tag _ _ ch => flat_map descendant_strings_of ch
  | NavigableString s => [s]
  | Comment _ => []
  | OtherString _ _ => []
  end.

Definition descendant_strings (ns : list node) : list pystr :=
  flat_map descendant_strings_of ns.

(** The strings of class [c] below the given nodes, in document order. *)
Fixpoint class_strings_of (c : string_class) (n : node) : list pystr :=
  match n with
  | Tag _ _ ch => flat_map (class_strings_of c) ch
  | NavigableString _ => []
  | Comment _ => []
  | OtherString c' s => if decide (c' = c) then [s] else []
  end.

Definition class_strings (c : string_class) (ns : list node) : list pystr :=
  flat_map (class_strings_of c) ns.

(** [builder.string_containers] of the HTML tree builders: the elements
    whose text has a class of its own. *)
Definition string_containers (name : pystr) : option string_class :=
  if decide (name = lit "rt") then Some RubyTextString
  else if decide (name = lit "rp") then Some RubyParenthesisString
  else if decide (name = lit "style") then Some Stylesheet
  else if decide (name = lit "script") then Some Script
  else if decide (name = lit "template") then Some TemplateString
  else None.

(** [el._all_strings()]: the strings below the element whose class is
    one of [el.interesting_string_types], which is the class of
    [string_containers] for the element's name and [NavigableString] and
    [CData] for every other element. *)
Definition all_strings (el : element) : list pystr :=
  match string_containers (el_name el) with
  | Some c => class_strings c (el_children el)
  | None => descendant_strings (el_children el)
  end.

(** [el.get_text(sep, strip=True)]: each of these strings stripped, the
    empty ones left out, the rest joined with [sep]. *)
Definition get_text (sep : pystr) (el : element) : pystr :=
  py_join sep
    (filter (fun s => truthy s = true) (map py_strip (all_strings el))).

(** A position in the tree: the index of a node among the top-level
    nodes, then the index of a child, and so on. *)
Definition position := list nat.

(** The elements on the way to a position, the outermost first. *)
Fixpoint elements_on_path (ns : list node) (p : position) : list element :=
  match p with
  | [] => []
  | i :: p' =>
      match ns !! i with
      | Some (Tag nm a ch) => mkElement nm a ch :: elements_on_path ch p'
      | _ => []
      end
  end.

(** The element at a position, if the position is that of an element. *)
Fixpoint element_at (ns : list node) (p : position) : option element :=
  match p with
  | [] => None
  | i :: p' =>
      match ns !! i with
      | Some (Tag nm a ch) =>
          match p' with
          | [] => Some (mkElement nm a ch)
          | _ :: _ => element_at ch p'
          end
      | _ => None
      end
  end.

(** Document order, which is the order of a depth-first traversal: an
    element comes before the elements inside it and before everything
    that starts after its start tag. *)
Fixpoint comes_before (p q : position) : Prop :=
  match p, q with
  | [], [] => False
  | [], _ :: _ => True
  | _ :: _, [] => False
  | i :: p', j :: q' => (i < j)%nat \/ (i = j /\ comes_before p' q')
  end.

(** The same position with one more node before the top-level nodes. *)
Definition shift (p : position) : position :=
  match p with
  | [] => []
  | i :: p' => S i :: p'
  end.

End Soup.
Export Soup.

(** ** scrap.py *)

Module Scrap.

(** *** Configuration *)

(** A member of a selector group: a type selector [name] or an attribute
    selector [[role=value]]. *)
Inductive simple_selector :=
| TypeSelector (name : pystr)
| RoleSelector (value : pystr).

(** [CONTROL_SELECTOR] is a comma-separated group of CSS selectors: nine
    type selectors and ten attribute selectors.  An element matches the
    group when it matches one member. *)
Definition CONTROL_SELECTOR : list simple_selector :=
  [TypeSelector (lit "button"); TypeSelector (lit "a");
   TypeSelector (lit "input"); TypeSelector (lit "textarea");
   TypeSelector (lit "select"); TypeSelector (lit "option");
   TypeSelector (lit "label"); TypeSelector (lit "summary");
   TypeSelector (lit "details");
   RoleSelector (lit "button"); RoleSelector (lit "link");
   RoleSelector (lit "textbox"); RoleSelector (lit "searchbox");
   RoleSelector (lit "combobox"); RoleSelector (lit "listbox");
   RoleSelector (lit "checkbox"); RoleSelector (lit "radio");
   RoleSelector (lit "tab"); RoleSelector (lit "menuitem")].

Definition KEEP_ATTRS : gset pystr :=
  list_to_set
    [lit "id"; lit "name"; lit "type"; lit "placeholder"; lit "value";
     lit "href"; lit "for";
     lit "role"; lit "aria-label"; lit "aria-labelledby";
     lit "aria-describedby";
     lit "data-testid"; lit "data-test"; lit "data-qa"].

Definition NOISE_TAGS : list pystr :=
  [lit "script"; lit "style"; lit "noscript"; lit "svg"; lit "img";
   lit "video"; lit "canvas"].

(** The string literal appended on truncation, as the source file holds
    it: the three code points U+00E2, U+20AC, U+00A6. *)
Definition ELLIPSIS : pystr := [226%N; 8364%N; 166%N].

(** *** Data model *)

Record ControlItem := mkControlItem {
  tag : pystr;
  text : option pystr;
  attrs : option (dict pystr)
}.

(** *** Minimization / extraction *)

Definition _normalize_text (text : pystr) : pystr :=
  py_strip (py_join (lit " ") (py_split text)).

(** [_remove_comments]: every comment node is taken out of the tree. *)
Fixpoint remove_comments_of (n : node) : list node :=
  match n with
  | Tag nm a ch => [Tag nm a (flat_map remove_comments_of ch)]
  | NavigableString s => [NavigableString s]
  | Comment _ => []
  | OtherString c s => [OtherString c s]
  end.

Definition _remove_comments (soup : list node) : list node :=
  flat_map remove_comments_of soup.

Definition is_noise (nm : pystr) : bool := bool_decide (nm ∈ NOISE_TAGS).

(** [_remove_noise]: every element named in [NOISE_TAGS] is decomposed,
    which deletes it together with everything below it. *)
Fixpoint remove_noise_of (n : node) : list node :=
  match n with
  | Tag nm a ch =>
      if is_noise nm then [] else [Tag nm a (flat_map remove_noise_of ch)]
  | NavigableString s => [NavigableString s]
  | Comment s => [Comment s]
  | OtherString c s => [OtherString c s]
  end.

Definition _remove_noise (soup : list node) : list node :=
  flat_map remove_noise_of soup.

(** The string a CSS attribute selector compares with. *)
Definition css_attr_text (v : attr_value) : pystr :=
  match v with
  | AttrNone => []
  | AttrStr s => s
  | AttrList l => py_join (lit " ") (map (default []) l)
  end.

(** [pattern.match(text)] for the pattern [^value$] that the selector
    [[role=value]] is compiled to: [$] matches at the end of the text
    and before a line feed that ends the text. *)
Definition matches_value (value text : pystr) : bool :=
  bool_decide (text = value) || bool_decide (text = value ++ [10%N]).

(** An element matches a type selector by its name and an attribute
    selector by the value of its [role] attribute, matched as a whole. *)
Definition matches_simple (el : element) (sel : simple_selector) : bool :=
  match sel with
  | TypeSelector name => bool_decide (el_name el = name)
  | RoleSelector value =>
      match el_get el (lit "role") with
      | Some v => matches_value value (css_attr_text v)
      | None => false
      end
  end.

Definition matches_control_selector (el : element) : bool :=
  existsb (matches_simple el) CONTROL_SELECTOR.

(** [soup.select(CONTROL_SELECTOR)]: the matching elements of the tree in
    document order. *)
Definition select (soup : list node) : list element :=
  filter (fun el => matches_control_selector el = true) (descendant_tags soup).

(** [v or ""] for the result [v] of [el.get(k)] *)
Definition or_empty (v : option attr_value) : attr_value :=
  match v with
  | None | Some AttrNone | Some (AttrStr []) | Some (AttrList []) => AttrStr []
  | Some v' => v'
  end.

(** [v.lower()]: a method of [str]; a list has no such attribute. *)
Definition lower_of (v : attr_value) : result pystr :=
  match v with
  | AttrStr s => Ok (py_lower s)
  | _ => Raise AttributeError
  end.

Definition _is_hidden (el : element) : result bool :=
  a <-! lower_of (or_empty (el_get el (lit "aria-hidden")));
  if decide (a = lit "true") then Ok true
  else if decide (el_name el = lit "input") then
    t <-! lower_of (or_empty (el_get el (lit "type")));
    if decide (t = lit "hidden") then Ok true else Ok false
  else Ok false.

(** The test [k in keep or k.startswith("data-test")]. *)
Definition attr_kept (keep : gset pystr) (k : pystr) : bool :=
  bool_decide (k ∈ keep) || py_startswith (lit "data-test") k.

(** The loop of [_filter_attrs] over [el.attrs.items()], with the
    dictionary [out] built so far. *)
Fixpoint filter_attrs_loop (keep : gset pystr)
    (items : list (pystr * attr_value)) (out : dict pystr) : dict pystr :=
  match items with
  | [] => out
  | (k, v) :: rest =>
      if attr_kept keep k then
        match v with
        | AttrNone => filter_attrs_loop keep rest out
        | AttrList l =>
            let v' := py_join (lit " ") (omap id l) in
            filter_attrs_loop keep rest (dict_set out k v')
        | AttrStr s => filter_attrs_loop keep rest (dict_set out k s)
        end
      else filter_attrs_loop keep rest out
  end.

(** [keep = set(keep_attrs)] is the set it is given; [str] leaves the
    strings of an attribute value as they are. *)
Definition _filter_attrs (el : element) (keep_attrs : gset pystr)
  : dict pystr :=
  filter_attrs_loop keep_attrs (el_attrs el) [].

(** The text of an element as the loop body computes it. *)
Definition control_text (el : element) (max_text_len : Z) : pystr :=
  let text := _normalize_text (get_text (lit " ") el) in
  if truthy text && (py_len text >? max_text_len)
  then slice_to text (max_text_len - 1) ++ ELLIPSIS
  else text.

(** [x or None] *)
Definition or_none {A} (x : list A) : option (list A) :=
  match x with [] => None | _ => Some x end.

(** The body of the loop of [extract_controls_inventory] for one selected
    element: [None] where the body ends in [continue], the item it
    appends otherwise. *)
Definition control_item (el : element) (max_text_len : Z)
  : result (option ControlItem) :=
  hidden <-! _is_hidden el;
  if (hidden : bool) then Ok None
  else
    let text := control_text el max_text_len in
    let attrs := _filter_attrs el KEEP_ATTRS in
    if negb (truthy text) && negb (truthy attrs) then Ok None
    else Ok (Some (mkControlItem (el_name el) (or_none text) (or_none attrs))).

(** The loop over the selected elements, with the list [items] appended
    to so far. *)
Fixpoint extract_loop (els : list element) (max_text_len : Z)
    (items : list ControlItem) : result (list ControlItem) :=
  match els with
  | [] => Ok items
  | el :: rest =>
      r <-! control_item el max_text_len;
      match r with
      | None => extract_loop rest max_text_len items
      | Some it => extract_loop rest max_text_len (items ++ [it])
      end
  end.

(** [extract_controls_inventory] from the tree the parser has built. *)
Definition extract_controls_soup (soup : list node) (max_text_len : Z)
  : result (list ControlItem) :=
  let soup := _remove_comments soup in
  let soup := _remove_noise soup in
  extract_loop (select soup) max_text_len [].

Section WithParser.

(** [BeautifulSoup(html, "html.parser")]: the children of the document
    object the parser builds from the markup. *)
Variable html_parser : pystr -> list node.

Definition extract_controls_inventory (html : pystr) (max_text_len : Z)
  : result (list ControlItem) :=
  extract_controls_soup (html_parser html) max_text_len.

End WithParser.

(** *** The rules of the specification, for comparison with the code *)

(** The allow-list as the specification enumerates it. *)
Definition ALLOW_LIST : list pystr :=
  [lit "id"; lit "name"; lit "type"; lit "placeholder"; lit "value";
   lit "href"; lit "for"; lit "role"; lit "aria-label";
   lit "aria-labelledby"; lit "aria-describedby"; lit "data-testid";
   lit "data-test"; lit "data-qa"].

(** An attribute name is kept when it is in the allow-list or starts with
    the prefix "data-test". *)
Definition kept_by_spec (k : pystr) : Prop :=
  k ∈ ALLOW_LIST \/ exists rest, k = lit "data-test" ++ rest.

(** The string an attribute value is emitted as: none for a null value,
    the non-null entries of a multi-valued attribute joined with single
    spaces, the string itself otherwise. *)
Definition attr_string (v : attr_value) : option pystr :=
  match v with
  | AttrNone => None
  | AttrStr s => Some s
  | AttrList l => Some (py_join (lit " ") (omap id l))
  end.

(** What one attribute contributes to the filtered mapping. *)
Definition kept_pair (keep : gset pystr) (kv : pystr * attr_value)
  : option (pystr * pystr) :=
  if attr_kept keep kv.1 then pair kv.1 <$> attr_string kv.2 else None.

(** The filtered attribute mapping as the specification describes it:
    the attributes of the element in their order, each kept or dropped on
    its own. *)
Definition filter_attrs_spec (el : element) : dict pystr :=
  omap (kept_pair KEEP_ATTRS) (el_attrs el).

(** An element is hidden when its [aria-hidden] attribute lowers to
    "true", or it is an input whose [type] attribute lowers to "hidden". *)
Definition hidden_by_spec (el : element) : Prop :=
  (exists s, el_get el (lit "aria-hidden") = Some (AttrStr s)
             /\ py_lower s = lit "true")
  \/ (el_name el = lit "input"
      /\ exists s, el_get el (lit "type") = Some (AttrStr s)
                   /\ py_lower s = lit "hidden").

(** The elements the loop of [extract_controls_inventory] runs over. *)
Definition selected (soup : list node) : list element :=
  select (_remove_noise (_remove_comments soup)).

(** An element of the document as the loop meets it: with the comments
    and the noise elements below it removed. *)
Definition cleaned (el : element) : element :=
  mkElement (el_name el) (el_attrs el)
    (_remove_noise (_remove_comments (el_children el))).

(** The element at the position or an element around it is a noise
    element. *)
Definition noise_on_path (soup : list node) (p : position) : bool :=
  existsb (fun el => is_noise (el_name el)) (elements_on_path soup p).

(** The positions [ps] are those of the traversal of the cleaned tree:
    they come in document order, the elements the traversal meets are,
    one by one, the elements at these positions of the document, none of
    them with a noise element around it, and no such position is left
    out. *)
Definition traversal_positions (soup : list node) (ps : list position)
  : Prop :=
  StronglySorted comes_before ps
  /\ Forall2 (fun p el' => exists el, element_at soup p = Some el
                                     /\ noise_on_path soup p = false
                                     /\ el' = cleaned el)
       ps (descendant_tags (_remove_noise (_remove_comments soup)))
  /\ (forall p el, element_at soup p = Some el ->
                  noise_on_path soup p = false -> p ∈ ps).

(** *** Serialization *)

(** The values [inventory_to_json] hands to [json.dumps]: strings, lists
    and dictionaries with string keys. *)
#[warnings="-register-all"]
Inductive json :=
| JStr (s : pystr)
| JList (l : list json)
| JDict (d : dict json).

Definition to_compact_dict (it : ControlItem) : dict json :=
  let out := [(lit "tag", JStr (tag it))] in
  let out :=
    match text it with
    | Some ((_ :: _) as t) => dict_set out (lit "text") (JStr t)
    | _ => out
    end in
  let out :=
    match attrs it with
    | Some ((_ :: _) as a) =>
        dict_set out (lit "attrs") (JDict (map (fun kv => (kv.1, JStr kv.2)) a))
    | _ => out
    end in
  out.

(** The digit of [n < 16] in lower-case hexadecimal. *)
Definition hex_digit (n : N) : codepoint :=
  (if n <? 10 then 48 + n else 87 + n)%N.

(** ['\\u{0:04x}'.format(n)] *)
Definition u_escape (n : N) : pystr :=
  lit "\u" ++ [hex_digit (n / 4096 mod 16); hex_digit (n / 256 mod 16);
               hex_digit (n / 16 mod 16); hex_digit (n mod 16)]%N.

(** [ESCAPE_DCT] of json.encoder: the short escapes, and [\u00XX] for the
    other control characters. *)
Definition escape_dct (c : codepoint) : option pystr :=
  if (c =? 92)%N then Some (lit "\\")
  else if (c =? 34)%N then Some [92%N; 34%N]
  else if (c =? 8)%N then Some (lit "\b")
  else if (c =? 12)%N then Some (lit "\f")
  else if (c =? 10)%N then Some (lit "\n")
  else if (c =? 13)%N then Some (lit "\r")
  else if (c =? 9)%N then Some (lit "\t")
  else if (c <? 32)%N then Some (u_escape c)
  else None.

(** One character under [ensure_ascii=False]: only the members of
    [ESCAPE_DCT] are replaced. *)
Definition escape_char (c : codepoint) : pystr :=
  default [c] (escape_dct c).

(** One character under [ensure_ascii=True]: everything outside the
    printable ASCII range is replaced as well, code points from 0x10000 on
    by a surrogate pair. *)
Definition escape_char_ascii (c : codepoint) : pystr :=
  match escape_dct c with
  | Some e => e
  | None =>
      if ((32 <=? c) && (c <=? 126))%N then [c]
      else if (c <? 65536)%N then u_escape c
      else let n := (c - 65536)%N in
           u_escape (55296 + (n / 1024) mod 1024)%N
           ++ u_escape (56320 + n mod 1024)%N
  end.

Definition encode_basestring (ensure_ascii : bool) (s : pystr) : pystr :=
  [34%N]
  ++ flat_map (if ensure_ascii then escape_char_ascii else escape_char) s
  ++ [34%N].

(** [json.dumps(v, ensure_ascii=.., separators=(item_sep, key_sep))] *)
Fixpoint dumps (ensure_ascii : bool) (item_sep key_sep : pystr) (v : json)
  : pystr :=
  match v with
  | JStr s => encode_basestring ensure_ascii s
  | JList l =>
      lit "[" ++ py_join item_sep (map (dumps ensure_ascii item_sep key_sep) l)
      ++ lit "]"
  | JDict d =>
      lit "{"
      ++ py_join item_sep
           (map (fun kv => encode_basestring ensure_ascii kv.1 ++ key_sep
                           ++ dumps ensure_ascii item_sep key_sep kv.2) d)
      ++ lit "}"
  end.

Definition inventory_to_json (items : list ControlItem) : pystr :=
  let payload := map (fun it => JDict (to_compact_dict it)) items in
  dumps false (lit ",") (lit ":") (JList payload).

(** *** Reading the document back

    The decoder of the json module ([json.loads]) on the documents that
    hold strings, arrays and objects; every other document is rejected.
    A function reads a prefix of its input and returns the rest. *)

(** The white space the decoder skips between tokens. *)
Definition json_ws (c : codepoint) : bool :=
  ((c =? 32) || (c =? 9) || (c =? 10) || (c =? 13))%N.

Fixpoint skip_ws (s : pystr) : pystr :=
  match s with
  | [] => []
  | c :: s' => if json_ws c then skip_ws s' else s
  end.

Definition hex_value (c : codepoint) : option N :=
  (if (48 <=? c) && (c <=? 57) then Some (c - 48)
   else if (97 <=? c) && (c <=? 102) then Some (c - 87)
   else if (65 <=? c) && (c <=? 70) then Some (c - 55)
   else None)%N.

(** [_decode_uXXXX]: four hexadecimal digits. *)
Definition decode_uXXXX (h1 h2 h3 h4 : codepoint) : option N :=
  a ← hex_value h1; b ← hex_value h2; c ← hex_value h3; d ← hex_value h4;
  Some (a * 4096 + b * 256 + c * 16 + d)%N.

(** [BACKSLASH] of json.decoder: the character after a backslash. *)
Definition backslash (e : codepoint) : option codepoint :=
  (if e =? 34 then Some 34
   else if e =? 92 then Some 92
   else if e =? 47 then Some 47
   else if e =? 98 then Some 8
   else if e =? 102 then Some 12
   else if e =? 110 then Some 10
   else if e =? 114 then Some 13
   else if e =? 116 then Some 9
   else None)%N.

(** [scanstring] in strict mode, from just after the opening quote; [acc]
    holds the characters read so far, last first. *)
Fixpoint scanstring (s : pystr) (acc : pystr) {struct s}
  : option (pystr * pystr) :=
  match s with
  | [] => None
  | c :: r =>
      if (c =? 34)%N then Some (rev acc, r)
      else if (c =? 92)%N then
        match r with
        | [] => None
        | e :: r1 =>
            if (e =? 117)%N then
              match r1 with
              | h1 :: h2 :: h3 :: h4 :: r2 =>
                  match decode_uXXXX h1 h2 h3 h4 with
                  | None => None
                  | Some uni =>
                      if ((55296 <=? uni) && (uni <=? 56319))%N then
                        match r2 with
                        | 92%N :: 117%N :: g1 :: g2 :: g3 :: g4 :: r3 =>
                            match decode_uXXXX g1 g2 g3 g4 with
                            | None => None
                            | Some uni2 =>
                                if ((56320 <=? uni2) && (uni2 <=? 57343))%N
                                then scanstring r3
                                       ((65536 + (uni - 55296) * 1024
                                         + (uni2 - 56320))%N :: acc)
                                else scanstring r2 (uni :: acc)
                            end
                        | _ => scanstring r2 (uni :: acc)
                        end
                      else scanstring r2 (uni :: acc)
                  end
              | _ => None
              end
            else
              match backslash e with
              | Some x => scanstring r1 (x :: acc)
              | None => None
              end
        end
      else if (c <? 32)%N then None
      else scanstring r (c :: acc)
  end.

(** [dict(pairs)]: a repeated key keeps its first place and takes its
    last value. *)
Definition dict_of_pairs {V} (pairs : list (pystr * V)) : dict V :=
  fold_left (fun d kv => dict_set d kv.1 kv.2) pairs [].

(** [scan_once], [JSONArray] and [JSONObject].  [array_loop] and
    [object_loop] are the two [while True] loops, entered at an element
    and at the character after the opening quote of a key.  Every call
    consumes input, so [fuel] bounds the nesting by the input length. *)
Fixpoint scan_once (fuel : nat) (s : pystr) : option (json * pystr) :=
  match fuel with
  | O => None
  | S fuel' =>
      match s with
      | [] => None
      | c :: r =>
          if (c =? 34)%N then
            '(str, rest) ← scanstring r []; Some (JStr str, rest)
          else if (c =? 91)%N then
            match skip_ws r with
            | 93%N :: rest => Some (JList [], rest)
            | r' => '(vs, rest) ← array_loop fuel' r' []; Some (JList vs, rest)
            end
          else if (c =? 123)%N then
            match skip_ws r with
            | 125%N :: rest => Some (JDict [], rest)
            | 34%N :: r' =>
                '(ps, rest) ← object_loop fuel' r' [];
                Some (JDict (dict_of_pairs ps), rest)
            | _ => None
            end
          else None
      end
  end
with array_loop (fuel : nat) (s : pystr) (values : list json)
  : option (list json * pystr) :=
  match fuel with
  | O => None
  | S fuel' =>
      '(value, s1) ← scan_once fuel' s;
      match skip_ws s1 with
      | 93%N :: rest => Some (values ++ [value], rest)
      | 44%N :: r => array_loop fuel' (skip_ws r) (values ++ [value])
      | _ => None
      end
  end
with object_loop (fuel : nat) (s : pystr) (pairs : list (pystr * json))
  : option (list (pystr * json) * pystr) :=
  match fuel with
  | O => None
  | S fuel' =>
      '(key, s1) ← scanstring s [];
      match skip_ws s1 with
      | 58%N :: s2 =>
          '(value, s3) ← scan_once fuel' (skip_ws s2);
          match skip_ws s3 with
          | 125%N :: rest => Some (pairs ++ [(key, value)], rest)
          | 44%N :: r =>
              match skip_ws r with
              | 34%N :: r' => object_loop fuel' r' (pairs ++ [(key, value)])
              | _ => None
              end
          | _ => None
          end
      | _ => None
      end
  end.

(** [json.loads(s)]: one value, white space around it, nothing else. *)
Definition loads (s : pystr) : option json :=
  '(v, rest) ← scan_once (length s) (skip_ws s);
  match skip_ws rest with
  | [] => Some v
  | _ => None
  end.

(** A parsed object read as the triple [{tag, text, attrs}]; a missing
    [text] or [attrs] key is the absent field. *)
Definition str_of_json (v : json) : option pystr :=
  match v with JStr s => Some s | _ => None end.

Definition item_of_json (v : json) : option ControlItem :=
  match v with
  | JDict d =>
      t ← dict_get d (lit "tag") ≫= str_of_json;
      x ← match dict_get d (lit "text") with
          | None => Some None
          | Some j => Some <$> str_of_json j
          end;
      a ← match dict_get d (lit "attrs") with
          | None => Some None
          | Some (JDict kvs) =>
              Some <$> mapM (fun kv => pair kv.1 <$> str_of_json kv.2) kvs
          | Some _ => None
          end;
      Some (mkControlItem t x a)
  | _ => None
  end.

Definition items_of_json (v : json) : option (list ControlItem) :=
  match v with
  | JList l => mapM item_of_json l
  | _ => None
  end.

(** *** Well-formed values *)

(** Every dictionary inside a value has distinct keys. *)
#[warnings="-register-all"]
Inductive json_wf : json -> Prop :=
| wf_JStr s : json_wf (JStr s)
| wf_JList l : Forall json_wf l -> json_wf (JList l)
| wf_JDict d :
    dict_wf d -> Forall (fun kv => json_wf kv.2) d -> json_wf (JDict d).

(** What an item of the extractor looks like: an absent field is [None],
    never an empty value, and the attributes form a dictionary. *)
Definition item_wf (it : ControlItem) : Prop :=
  text it <> Some []
  /\ attrs it <> Some []
  /\ forall a, attrs it = Some a -> dict_wf a.

(** The strings an item carries: its tag, its text and the names and
    values of its attributes. *)
Definition item_strings (it : ControlItem) : list pystr :=
  tag it
  :: match text it with Some t => [t] | None => [] end
  ++ match attrs it with
     | Some a => flat_map (fun kv => [kv.1; kv.2]) a
     | None => []
     end.

(** The characters of the strings of the items. *)
Definition items_chars (items : list ControlItem) : list codepoint :=
  concat (flat_map item_strings items).

(** The strings of a value: its string leaves and the keys of its
    dictionaries. *)
Fixpoint json_strings (v : json) : list pystr :=
  match v with
  | JStr s => [s]
  | JList l => flat_map json_strings l
  | JDict d => flat_map (fun kv => kv.1 :: json_strings kv.2) d
  end.

(** The list [inventory_to_json] serializes. *)
Definition payload (items : list ControlItem) : json :=
  JList (map (fun it => JDict (to_compact_dict it)) items).

(** A printable ASCII character other than the space. *)
Definition ascii_graphic (c : codepoint) : bool :=
  ((33 <=? c) && (c <=? 126))%N.

(** A text that begins like a compact value: with a quote, a bracket or
    a brace. *)
Definition starts_value (s : pystr) : Prop :=
  exists c r, s = c :: r /\ (c = 34 \/ c = 91 \/ c = 123)%N.

(** The compact document and the text after the opening quote of the
    first key of a non-empty object, as [object_loop] reads them. *)
Definition compact (v : json) : pystr := dumps false (lit ",") (lit ":") v.

(** The decoder reads the compact document of [v] back, whatever
    follows it, with fuel for the length of the document. *)
Definition reads_back (v : json) : Prop :=
  forall fuel rest,
    (length (compact v) <= fuel)%nat ->
    scan_once fuel (compact v ++ rest) = Some (v, rest).

Fixpoint object_tail (d : dict json) : pystr :=
  match d with
  | [] => []
  | [(k, v)] => flat_map escape_char k ++ [34%N] ++ lit ":" ++ compact v
  | (k, v) :: d' =>
      flat_map escape_char k ++ [34%N] ++ lit ":" ++ compact v
      ++ lit "," ++ [34%N] ++ object_tail d'
  end.

End Scrap.

(** ** llm.py *)

Module Llm.

(** What [r.json()] returns: the Python value of a JSON document.  A
    float is kept as its bit pattern; nothing in the script looks at it. *)
#[warnings="-register-all"]
Inductive value :=
| VNone
| VBool (b : bool)
| VInt (n : Z)
| VFloat (bits : N)
| VStr (s : pystr)
| VList (l : list value)
| VDict (d : dict value).

(** [needle in hay] for two strings *)
Fixpoint str_contains (needle hay : pystr) : bool :=
  py_startswith needle hay
  || match hay with
     | [] => false
     | _ :: hay' => str_contains needle hay'
     end.

Definition is_str (k : pystr) (v : value) : bool :=
  match v with
  | VStr s => bool_decide (s = k)
  | _ => false
  end.

(** [k in data] for a string [k]: a key of a dictionary, an element of a
    list, a substring of a string; the other values are not iterable. *)
Definition py_in (k : pystr) (data : value) : result bool :=
  match data with
  | VDict d => Ok (bool_decide (k ∈ keys d))
  | VList l => Ok (existsb (is_str k) l)
  | VStr s => Ok (str_contains k s)
  | _ => Raise TypeError
  end.

(** [data[k]] for a string [k] *)
Definition getitem_str (data : value) (k : pystr) : result value :=
  match data with
  | VDict d =>
      match dict_get d k with
      | Some v => Ok v
      | None => Raise KeyError
      end
  | _ => Raise TypeError
  end.

(** [data[0]] *)
Definition getitem_0 (data : value) : result value :=
  match data with
  | VList (v :: _) => Ok v
  | VList [] => Raise IndexError
  | VStr (c :: _) => Ok (VStr [c])
  | VStr [] => Raise IndexError
  | VDict _ => Raise KeyError
  | _ => Raise TypeError
  end.

(** What running the module body does after [data = r.json()]: the
    arguments of the one call of [print], or the exception that ends the
    script. *)
Definition main (data : value) : result (list value) :=
  has <-! py_in (lit "choices") data;
  if (has : bool) then
    choices <-! getitem_str data (lit "choices");
    first <-! getitem_0 choices;
    message <-! getitem_str first (lit "message");
    content <-! getitem_str message (lit "content");
    Ok [content]
  else Ok [VStr (lit "ERROR:"); data].

(** The shape the script expects of the response:
    [{"choices": [{"message": {"content": c, ...}, ...}, ...], ...}]. *)
Definition expected_shape (data content : value) : Prop :=
  exists d rest c m,
    data = VDict d
    /\ dict_get d (lit "choices") = Some (VList (VDict c :: rest))
    /\ dict_get c (lit "message") = Some (VDict m)
    /\ dict_get m (lit "content") = Some content.

(** The payloads the guard of the script turns away: an object without
    the key [choices], an array without the element "choices", a string
    that does not contain it. *)
Definition lacks_choices (data : value) : Prop :=
  match data with
  | VDict d => lit "choices" ∉ keys d
  | VList l => VStr (lit "choices") ∉ l
  | VStr s => str_contains (lit "choices") s = false
  | _ => False
  end.

End Llm.

(** ** The documents of the scenarios

    The trees html.parser builds from the markup of the scenarios of the
    specification. *)

Module Scenarios.
Import Scrap.

(** [<input type="hidden" value="abc">] *)
Definition hidden_input_doc : list node :=
  [Tag (lit "input")
     [(lit "type", AttrStr (lit "hidden")); (lit "value", AttrStr (lit "abc"))]
     []].

(** [<button aria-hidden="true">Hi</button>
     <a href="/x" data-testid="link1">Click here</a>] *)
Definition hidden_button_and_link_doc : list node :=
  [Tag (lit "button") [(lit "aria-hidden", AttrStr (lit "true"))]
     [NavigableString (lit "Hi")];
   Tag (lit "a")
     [(lit "href", AttrStr (lit "/x"));
      (lit "data-testid", AttrStr (lit "link1"))]
     [NavigableString (lit "Click here")]].

Definition link_item : ControlItem :=
  mkControlItem (lit "a") (Some (lit "Click here"))
    (Some [(lit "href", lit "/x"); (lit "data-testid", lit "link1")]).



(** [<button ARIA-HIDDEN="TrUe" id="b">Hi</button><a></a>
     <input type="text" name="q">] *)
Definition mixed_doc : list node :=
  [Tag (lit "button")
     [(lit "aria-hidden", AttrStr (lit "TrUe")); (lit "id", AttrStr (lit "b"))]
     [NavigableString (lit "Hi")];
   Tag (lit "a") [] [];
   Tag (lit "input")
     [(lit "type", AttrStr (lit "text")); (lit "name", AttrStr (lit "q"))]
     []].

(** An item whose text holds a non-ASCII letter, a space and a character
    beyond the basic plane. *)
Definition cafe_item : ControlItem :=
  mkControlItem (lit "button") (Some [99; 97; 102; 233; 32; 128512]%N) None.

Definition query_item : ControlItem :=
  mkControlItem (lit "input") None
    (Some [(lit "type", lit "text"); (lit "name", lit "q")]).

(** [<output for="a b" class="x y" id data-testid="t"
     data-test-foo="f" title="T">]: [for] and [class] are multi-valued
    for this tag; the [None] values stand for what a caller may have
    put into the tree. *)
Definition output_element : element :=
  mkElement (lit "output")
    [(lit "for", AttrList [Some (lit "a"); None; Some (lit "b")]);
     (lit "class", AttrList [Some (lit "x"); Some (lit "y")]);
     (lit "id", AttrNone);
     (lit "data-testid", AttrStr (lit "t"));
     (lit "data-test-foo", AttrStr (lit "f"));
     (lit "title", AttrStr (lit "T"))]
    [].

(** [<label> Name <input name="n"><!-- hint --></label>
     <svg><a href="/s">logo</a></svg>
     <div role="button"><span> Go </span><b>now</b></div>] *)
Definition nested_doc : list node :=
  [Tag (lit "label") []
     [NavigableString (lit " Name ");
      Tag (lit "input") [(lit "name", AttrStr (lit "n"))] [];
      Comment (lit " hint ")];
   Tag (lit "svg") []
     [Tag (lit "a") [(lit "href", AttrStr (lit "/s"))]
        [NavigableString (lit "logo")]];
   Tag (lit "div") [(lit "role", AttrStr (lit "button"))]
     [Tag (lit "span") [] [NavigableString (lit " Go ")];
      Tag (lit "b") [] [NavigableString (lit "now")]]].

(** [<label>Name</label>
     <div role="button&#10;">Go<template>no</template></div>
     <span role="tab ">x</span>
     <template role="link">Open</template>]: a role value that ends in a
    line feed, one that ends in a space, and text inside templates. *)
Definition role_doc : list node :=
  [Tag (lit "label") [] [NavigableString (lit "Name")];
   Tag (lit "div") [(lit "role", AttrStr (lit "button" ++ [10%N]))]
     [NavigableString (lit "Go");
      Tag (lit "template") [] [OtherString TemplateString (lit "no")]];
   Tag (lit "span") [(lit "role", AttrStr (lit "tab "))]
     [NavigableString (lit "x")];
   Tag (lit "template") [(lit "role", AttrStr (lit "link"))]
     [OtherString TemplateString (lit "Open")]].

(** A tree in which a caller has put a list where the parser puts a
    string: [button["aria-hidden"] = ["true"]]. *)
Definition list_valued_doc : list node :=
  [Tag (lit "a") [(lit "href", AttrStr (lit "/x"))] [NavigableString (lit "x")];
   Tag (lit "button") [(lit "aria-hidden", AttrList [Some (lit "true")])]
     [NavigableString (lit "Hi")]].

End Scenarios.

(** ** Notions for the properties of the helpers *)

Module Shape.
Import Scrap.

(** A word: a non-empty run of characters that are not white space. *)
Definition is_word (w : pystr) : Prop :=
  w <> [] /\ Forall (fun c => py_isspace c = false) w.

(** No two white-space characters stand side by side. *)
Fixpoint single_spaced (s : pystr) : bool :=
  match s with
  | a :: ((b :: _) as r) =>
      negb (py_isspace a && py_isspace b) && single_spaced r
  | _ => true
  end.



(** What the extractor reads of an element: its name, its attributes and
    the strings below it that [get_text] reads. *)
Definition el_view (el : element)
  : pystr * dict attr_value * list pystr :=
  (el_name el, el_attrs el, all_strings el).






(** The element carries a non-empty list where [_is_hidden] calls
    [.lower()]: as [aria-hidden] value, or as [type] value of an input. *)
Definition lowers_a_list (el : element) : Prop :=
  (exists x l, el_get el (lit "aria-hidden") = Some (AttrList (x :: l)))
  \/ (el_name el = lit "input"
      /\ exists x l, el_get el (lit "type") = Some (AttrList (x :: l))).

End Shape.

(** ** scrap.py: fetching *)

Module Fetch.

(** A raised exception: its class, and whether the class derives from
    [Exception] (KeyboardInterrupt and SystemExit do not). *)
Record exception := mkException {
  exc_class : pystr;
  exc_is_Exception : bool
}.

Inductive outcome (A : Type) :=
| Returned (a : A)
| Raised (e : exception).
Arguments Returned {A} a.
Arguments Raised {A} e.

Definition HTTPError : exception := mkException (lit "HTTPError") true.

(** What [session.get] returns: the final response, after redirects and
    retries. *)
Record Response := mkResponse {
  status_code : Z;
  resp_text : pystr
}.

(** [resp.raise_for_status()]: a client or server error status raises. *)
Definition raise_for_status (resp : Response) : outcome unit :=
  if (400 <=? status_code resp) && (status_code resp <? 600)
  then Raised HTTPError
  else Returned tt.

Section WithNetwork.

(** [_build_session().get(url, timeout=25, allow_redirects=True)] and the
    browser session of [fetch_html_playwright], as the network answers
    them. *)
Variable session_get : pystr -> outcome Response.
Variable fetch_html_playwright : pystr -> outcome pystr.

Definition fetch_html_requests (url : pystr) : outcome pystr :=
  match session_get url with
  | Raised e => Raised e
  | Returned resp =>
      match raise_for_status resp with
      | Raised e => Raised e
      | Returned _ => Returned (resp_text resp)
      end
  end.

(** [try: return fetch_html_requests(url)
     except Exception: return fetch_html_playwright(url)] *)
Definition fetch_html (url : pystr) : outcome pystr :=
  match fetch_html_requests url with
  | Returned html => Returned html
  | Raised e =>
      if exc_is_Exception e then fetch_html_playwright url else Raised e
  end.

End WithNetwork.

End Fetch.

(** ** scrap.py: main *)

Module Main.
Import Scrap Fetch.

(** The part of the world [main] acts on: the directories and the text
    files below the working directory, each file with the text written
    to it, and the lines printed.  Creating a directory fails where a
    file has the name, and opening a file for writing fails where a
    directory has the name or the parent directory is missing;
    permissions and devices are outside the model. *)
Record world := mkWorld {
  dirs : gset pystr;
  files : gmap pystr pystr;
  stdout : list pystr
}.

Definition FileExistsError : exception :=
  mkException (lit "FileExistsError") true.
Definition IsADirectoryError : exception :=
  mkException (lit "IsADirectoryError") true.
Definition FileNotFoundError : exception :=
  mkException (lit "FileNotFoundError") true.

(** The exceptions of the extractor as raised exceptions. *)
Definition exception_of (e : exn) : exception :=
  match e with
  | AttributeError => mkException (lit "AttributeError") true
  | TypeError => mkException (lit "TypeError") true
  | KeyError => mkException (lit "KeyError") true
  | IndexError => mkException (lit "IndexError") true
  end.

(** [os.makedirs(d, exist_ok=True)] for a directory name [d] of one
    component. *)
Definition makedirs (d : pystr) (w : world) : world * outcome unit :=
  if decide (d ∈ dom (files w)) then (w, Raised FileExistsError)
  else (mkWorld ({[d]} ∪ dirs w) (files w) (stdout w), Returned tt).

Definition UnicodeEncodeError : exception :=
  mkException (lit "UnicodeEncodeError") true.

(** The code points UTF-8 does not encode: the surrogates
    U+D800..U+DFFF. *)
Definition is_surrogate (c : N) : bool := (55296 <=? c)%N && (c <=? 57343)%N.

Definition utf8_encodable (s : pystr) : bool :=
  forallb (fun c => negb (is_surrogate c)) s.

(** [with open(d + "/" + name, "w", encoding="utf-8") as f:
     f.write(content)]: opening creates or empties the file, and the one
    [write] encodes the whole text before a byte of it is written. *)
Definition write_text (d name content : pystr) (w : world)
  : world * outcome unit :=
  let path := d ++ lit "/" ++ name in
  if decide (d ∈ dirs w) then
    if decide (path ∈ dirs w) then (w, Raised IsADirectoryError)
    else if utf8_encodable content then
      (mkWorld (dirs w) (<[path := content]> (files w)) (stdout w),
       Returned tt)
    else
      (mkWorld (dirs w) (<[path := []]> (files w)) (stdout w),
       Raised UnicodeEncodeError)
  else (w, Raised FileNotFoundError).

(** [print(line)] *)
Definition print (line : pystr) (w : world) : world :=
  mkWorld (dirs w) (files w) (stdout w ++ [line]).

(** [str(n)] for a natural number: its decimal digits.  [digits_from]
    puts the digits of [n] before [acc], the last digit first. *)
Fixpoint digits_from (fuel : nat) (n : N) (acc : pystr) : pystr :=
  match fuel with
  | O => acc
  | S fuel' =>
      let acc' := (48 + n mod 10)%N :: acc in
      if (n / 10 =? 0)%N then acc' else digits_from fuel' (n / 10)%N acc'
  end.

Definition py_str_nat (n : nat) : pystr :=
  digits_from (S n) (N.of_nat n) [].

Definition PAGE_PATH : pystr := lit "output/page.html".
Definition INVENTORY_PATH : pystr := lit "output/controls_inventory.json".

Section WithCollaborators.

Variable session_get : pystr -> outcome Response.
Variable fetch_html_playwright : pystr -> outcome pystr.
Variable html_parser : pystr -> list node.

(** [main()]: the world it leaves, and whether it returns or ends in an
    exception. *)
Definition main (w : world) : world * outcome unit :=
  let url := lit "https://example.com" in
  match makedirs (lit "output") w with
  | (w, Raised e) => (w, Raised e)
  | (w, Returned _) =>
  match fetch_html session_get fetch_html_playwright url with
  | Raised e => (w, Raised e)
  | Returned html =>
  match write_text (lit "output") (lit "page.html") html w with
  | (w, Raised e) => (w, Raised e)
  | (w, Returned _) =>
  match extract_controls_inventory html_parser html 80 with
  | Raise e => (w, Raised (exception_of e))
  | Ok inventory =>
  let inv_json := inventory_to_json inventory in
  match write_text (lit "output") (lit "controls_inventory.json") inv_json w with
  | (w, Raised e) => (w, Raised e)
  | (w, Returned _) =>
      let w := print (lit "Saved:") w in
      let w := print (lit " - output/page.html") w in
      let w := print (lit " - output/controls_inventory.json") w in
      let w := print (lit "Controls found: " ++ py_str_nat (length inventory)) w in
      (w, Returned tt)
  end end end end end.

End WithCollaborators.

End Main.

(** ** Runs of [main] on small worlds *)

Module Runs.
Import Scrap Fetch Main.

Definition page : pystr :=
  lit "<button aria-hidden=true>Hi</button>"
  ++ lit "<a href=/x data-testid=link1>Click here</a>".

(** The request is answered with the page. *)
Definition answered (url : pystr) : outcome Response :=
  Returned (mkResponse 200 page).

(** No connection, for the request and for the browser. *)
Definition ConnectionError : exception :=
  mkException (lit "ConnectionError") true.
Definition refused (url : pystr) : outcome Response := Raised ConnectionError.
Definition no_browser (url : pystr) : outcome pystr := Raised ConnectionError.

Definition parsed (html : pystr) : list node :=
  Scenarios.hidden_button_and_link_doc.

(** An empty working directory, nothing printed yet. *)
Definition empty_world : world := mkWorld ∅ ∅ [].

Definition saved_world : world :=
  mkWorld ({[lit "output"]} ∪ ∅)
    (<[INVENTORY_PATH := inventory_to_json [Scenarios.link_item]]>
       (<[PAGE_PATH := page]> ∅))
    ([] ++ [lit "Saved:"; lit " - output/page.html";
            lit " - output/controls_inventory.json";
            lit "Controls found: " ++ py_str_nat 1]).

Definition offline_world : world := mkWorld ({[lit "output"]} ∪ ∅) ∅ [].

End Runs.

(** * Properties *)

(** ** The model on small inputs *)

Section Examples.
Import Scrap Scenarios.

Example normalize_text_example :
  _normalize_text (lit "  Click" ++ [9; 10; 160]%N ++ lit "  here ")
  = lit "Click here".
Proof. reflexivity. Qed.

Example slice_to_examples :
  slice_to (lit "abcdef") 3 = lit "abc"
  /\ slice_to (lit "abcdef") 9 = lit "abcdef"
  /\ slice_to (lit "abcdef") (-1) = lit "abcde"
  /\ slice_to (lit "ab") (-5) = [].
Proof. repeat split. Qed.

Example select_nested_example :
  map el_name (selected nested_doc) = [lit "label"; lit "input"; lit "div"].
Proof. reflexivity. Qed.

Example extract_nested_example :
  extract_controls_soup nested_doc 80
  = Ok [mkControlItem (lit "label") (Some (lit "Name")) None;
        mkControlItem (lit "input") None (Some [(lit "name", lit "n")]);
        mkControlItem (lit "div") (Some (lit "Go now"))
          (Some [(lit "role", lit "button")])].
Proof. reflexivity. Qed.

Example extract_truncates_example :
  extract_controls_soup nested_doc 4
  = Ok [mkControlItem (lit "label") (Some (lit "Name")) None;
        mkControlItem (lit "input") None (Some [(lit "name", lit "n")]);
        mkControlItem (lit "div") (Some (lit "Go " ++ ELLIPSIS))
          (Some [(lit "role", lit "button")])].
Proof. reflexivity. Qed.

Example inventory_to_json_example :
  inventory_to_json [link_item; query_item]
  = dq "[{'tag':'a','text':'Click here','attrs':{'href':'/x','data-testid':'link1'}},{'tag':'input','attrs':{'type':'text','name':'q'}}]".
Proof. reflexivity. Qed.

Example inventory_to_json_escapes_example :
  inventory_to_json
    [mkControlItem (lit "a") (Some (lit "say " ++ [34; 9; 233; 1]%N)) None]
  = dq "[{'tag':'a','text':'say \'\t" ++ [233%N] ++ dq "\u0001'}]".
Proof. reflexivity. Qed.

Example loads_example :
  loads (dq " [ {'tag' : 'a', 'text':'\u00e9\n'} , [ ] ] ")
  = Some (JList [JDict [(lit "tag", JStr (lit "a"));
                        (lit "text", JStr [233; 10]%N)];
                 JList []]).
Proof. reflexivity. Qed.

(** The text of a template element is the text inside it, and the text
    inside a template is no text of the element around it; a role value
    that ends in a line feed matches the selector, one that ends in a
    space does not. *)
Example extract_role_doc_example :
  extract_controls_soup role_doc 80
  = Ok [mkControlItem (lit "label") (Some (lit "Name")) None;
        mkControlItem (lit "div") (Some (lit "Go"))
          (Some [(lit "role", lit "button" ++ [10%N])]);
        mkControlItem (lit "template") (Some (lit "Open"))
          (Some [(lit "role", lit "link")])].
Proof. reflexivity. Qed.

Example get_text_template_example :
  get_text (lit " ")
    (mkElement (lit "template") []
       [OtherString TemplateString (lit "Go"); NavigableString (lit "x");
        Tag (lit "b") [] [OtherString TemplateString (lit " on ")]])
  = lit "Go on"
  /\ get_text (lit " ")
       (mkElement (lit "div") []
          [NavigableString (lit "x");
           Tag (lit "template") [] [OtherString TemplateString (lit "Go")];
           Comment (lit "c"); OtherString Doctype (lit "html")])
     = lit "x".
Proof. split; reflexivity. Qed.

Example positions_example :
  element_at nested_doc [0; 1]%nat
  = Some (mkElement (lit "input") [(lit "name", AttrStr (lit "n"))] [])
  /\ element_at nested_doc [0; 0]%nat = None
  /\ map el_name (elements_on_path nested_doc [1; 0]%nat)
     = [lit "svg"; lit "a"]
  /\ noise_on_path nested_doc [1; 0]%nat = true
  /\ noise_on_path nested_doc [0; 1]%nat = false
  /\ comes_before [0]%nat [0; 1]%nat
  /\ comes_before [0; 1]%nat [2]%nat
  /\ ~ comes_before [2]%nat [0; 1]%nat.
Proof.
  split_and!; try reflexivity.
  - cbn. by right.
  - cbn. lia.
  - cbn. lia.
Qed.

Example llm_main_examples :
  Llm.main (Llm.VDict [(lit "choices", Llm.VList [])]) = Raise IndexError
  /\ Llm.main Llm.VNone = Raise TypeError
  /\ Llm.main (Llm.VList []) = Ok [Llm.VStr (lit "ERROR:"); Llm.VList []].
Proof. repeat split. Qed.

End Examples.

(** ** Dictionaries *)

Section DictFacts.
Context {V : Type}.
Implicit Types (d : dict V) (k : pystr) (v : V).

Lemma dict_get_None d k : dict_get d k = None <-> k ∉ keys d.
Proof.
  induction d as [|[k' v'] d IH]; simpl.
  - split; [intros _; apply not_elem_of_nil | done].
  - case_decide as E.
    + subst. split; [done | intros H; destruct H; left].
    + rewrite IH, not_elem_of_cons. split; [by split | by intros [_ ?]].
Qed.

Lemma dict_get_Some_In d k v : dict_get d k = Some v -> (k, v) ∈ d.
Proof.
  induction d as [|[k' v'] d IH]; simpl; [done|].
  case_decide as E.
  - intros [= ->]. subst. left.
  - intros H. right. auto.
Qed.

Lemma dict_get_In d k v : dict_wf d -> (k, v) ∈ d -> dict_get d k = Some v.
Proof.
  unfold dict_wf. induction d as [|[k' v'] d IH]; simpl.
  - intros _ H. by apply elem_of_nil in H.
  - rewrite NoDup_cons. intros [Hk Hd] [[= -> ->]|Hin]%elem_of_cons.
    + by rewrite decide_True.
    + rewrite decide_False; [auto|].
      intros ->. apply Hk. unfold keys.
      apply (list_elem_of_fmap_2 fst) in Hin. exact Hin.
Qed.

Lemma keys_dict_set d k v :
  keys (dict_set d k v) = if decide (k ∈ keys d) then keys d else keys d ++ [k].
Proof.
  induction d as [|[k' v'] d IH]; simpl.
  - done.
  - destruct (decide (k' = k)) as [->|E]; simpl.
    + rewrite decide_True; [done | left].
    + rewrite IH. destruct (decide (k ∈ keys d)) as [Hin|Hin].
      * rewrite decide_True; [done | by right].
      * rewrite decide_False; [done|].
        rewrite not_elem_of_cons. split; congruence.
Qed.

Lemma dict_set_wf d k v : dict_wf d -> dict_wf (dict_set d k v).
Proof.
  unfold dict_wf. rewrite keys_dict_set. case_decide as E; [done|].
  intros H. apply NoDup_app. split_and!; [done | | apply NoDup_singleton].
  intros x Hx ->%list_elem_of_singleton. done.
Qed.

Lemma dict_set_fresh d k v : k ∉ keys d -> dict_set d k v = d ++ [(k, v)].
Proof.
  induction d as [|[k' v'] d IH]; simpl; [done|].
  rewrite not_elem_of_cons. intros [Hne Hk].
  rewrite decide_False by done. by rewrite IH.
Qed.

End DictFacts.

(** ** llm.py: the report on the response *)

Section LlmFacts.
Import Llm.

Lemma dict_get_elem_of_keys {V} (d : dict V) k v :
  dict_get d k = Some v -> k ∈ keys d.
Proof.
  intros H. destruct (decide (k ∈ keys d)) as [|Hn]; [done|].
  apply dict_get_None in Hn. congruence.
Qed.

Lemma is_str_true (k : pystr) (v : value) : is_str k v = true <-> v = VStr k.
Proof.
  destruct v; cbn; try (split; [done | discriminate]).
  rewrite bool_decide_eq_true. split; [by intros -> | by intros [= ->]].
Qed.

Lemma existsb_is_str (k : pystr) (l : list value) :
  existsb (is_str k) l = false <-> VStr k ∉ l.
Proof.
  induction l as [|v l IH]; cbn.
  - split; [intros _; apply not_elem_of_nil | done].
  - rewrite orb_false_iff, IH, not_elem_of_cons.
    split; intros [H1 H2]; (split; [|done]).
    + intros E. symmetry in E. apply is_str_true in E. congruence.
    + destruct (is_str k v) eqn:E; [|done]. apply is_str_true in E. congruence.
Qed.

(** A payload without [choices] takes the [else] branch. *)
Lemma main_without_choices (data : value) :
  lacks_choices data ->
  main data = Ok [VStr (lit "ERROR:"); data].
Proof.
  unfold main, py_in. destruct data as [| | | |s|l|d]; cbn [lacks_choices]; try done.
  - by intros ->.
  - intros H. apply existsb_is_str in H. by rewrite H.
  - intros H. by rewrite bool_decide_eq_false_2.
Qed.

(** A response of the expected shape prints the content. *)
Lemma main_expected_shape (data content : value) :
  expected_shape data content -> main data = Ok [content].
Proof.
  intros (d & rest & c & m & -> & Hch & Hmsg & Hct).
  unfold main, py_in.
  rewrite bool_decide_eq_true_2 by (eapply dict_get_elem_of_keys; eauto).
  cbn [bind getitem_str]. rewrite Hch. cbn [bind getitem_0 getitem_str].
  rewrite Hmsg. cbn [bind getitem_str]. by rewrite Hct.
Qed.

(** The expected shape is the only one on which the script prints a
    content: every other response with a [choices] key ends the script
    with an exception. *)
Lemma main_prints_content_inv (d : dict value) (out : list value) :
  lit "choices" ∈ keys d ->
  main (VDict d) = Ok out ->
  exists content, out = [content] /\ expected_shape (VDict d) content.
Proof.
  intros Hin. unfold main, py_in.
  rewrite bool_decide_eq_true_2 by done. cbn [bind getitem_str].
  destruct (dict_get d (lit "choices")) as [ch|] eqn:Hch; [|done].
  cbn [bind]. destruct ch as [| | | | [|c0 s] | [|first rest] | ]; try done.
  cbn [bind getitem_0].
  destruct first as [| | | | | | c]; try done.
  cbn [bind getitem_str].
  destruct (dict_get c (lit "message")) as [msg|] eqn:Hmsg; [|done].
  cbn [bind]. destruct msg as [| | | | | | m]; try done.
  cbn [bind getitem_str].
  destruct (dict_get m (lit "content")) as [content|] eqn:Hct; [|done].
  cbn [bind]. intros [= <-]. exists content. split; [done|].
  by exists d, rest, c, m.
Qed.

(** C2, as stated, fails: the response [{"choices": []}] lacks the
    expected shape, passes the test for the [choices] field, and the
    script ends with an uncaught [IndexError] instead of printing
    "ERROR:" and the payload. *)
Lemma llm_malformed_response_counterexample :
  let data := VDict [(lit "choices", VList [])] in
  (forall content, ~ expected_shape data content)
  /\ main data = Raise IndexError
  /\ main data <> Ok [VStr (lit "ERROR:"); data].
Proof.
  cbn zeta. split_and!.
  - intros content (d & rest & c & m & [= <-] & Hch & _).
    vm_compute in Hch. discriminate.
  - reflexivity.
  - vm_compute. discriminate.
Qed.

(** C2, amended: a response that is an object without the [choices]
    field (or an array or a string without "choices") is reported by
    printing "ERROR:" followed by the payload, and a response of the
    expected shape prints the first choice's message content. *)
Theorem llm_main_reports (data good content : value) :
  (lacks_choices data -> main data = Ok [VStr (lit "ERROR:"); data])
  /\ (expected_shape good content -> main good = Ok [content]).
Proof.
  split; [apply main_without_choices | apply main_expected_shape].
Qed.

Lemma llm_main_reports_witness :
  let data := VDict [(lit "error", VDict [(lit "code", VInt 401)])] in
  let good :=
    VDict [(lit "id", VStr (lit "gen-1"));
           (lit "choices",
            VList [VDict [(lit "message",
                           VDict [(lit "role", VStr (lit "assistant"));
                                  (lit "content", VStr (lit "Hello!"))])]])] in
  main data = Ok [VStr (lit "ERROR:"); data]
  /\ main good = Ok [VStr (lit "Hello!")].
Proof.
  intros data good.
  destruct (llm_main_reports data good (VStr (lit "Hello!"))) as [H1 H2].
  split.
  - apply H1. vm_compute. intros H.
    apply (proj1 (list_elem_of_In _ _)) in H. simpl in H. intuition discriminate.
  - apply H2. eexists _, _, _, _. split_and!; reflexivity.
Defined.

End LlmFacts.

(** ** scrap.py: strings *)

Section StringFacts.

Lemma py_len_app (s t : pystr) : py_len (s ++ t) = py_len s + py_len t.
Proof. unfold py_len. rewrite length_app. lia. Qed.

Lemma py_len_nonneg (s : pystr) : 0 <= py_len s.
Proof. unfold py_len. lia. Qed.

(** A slice up to a bound inside the string has that many characters. *)
Lemma slice_to_len (s : pystr) (stop : Z) :
  0 <= stop <= py_len s -> py_len (slice_to s stop) = stop.
Proof.
  intros H. unfold slice_to, py_len in *.
  destruct (Z.ltb_spec stop 0); [lia|].
  rewrite length_take. lia.
Qed.

Lemma slice_to_take (s : pystr) (stop : Z) :
  0 <= stop -> slice_to s stop = take (Z.to_nat stop) s.
Proof.
  intros H. unfold slice_to, py_len.
  destruct (Z.ltb_spec stop 0); [lia|].
  destruct (Z.le_ge_cases stop (Z.of_nat (length s))).
  - by rewrite Z.min_l.
  - rewrite Z.min_r by done. rewrite Nat2Z.id.
    rewrite !take_ge; [done | lia | lia].
Qed.

Lemma truthy_true {A} (l : list A) : truthy l = true <-> l <> [].
Proof. destruct l; simpl; split; congruence. Qed.

Lemma truthy_false {A} (l : list A) : truthy l = false <-> l = [].
Proof. destruct l; simpl; split; congruence. Qed.

Lemma or_none_Some {A} (l t : list A) :
  Scrap.or_none l = Some t -> t = l /\ l <> [].
Proof. destruct l; simpl; [done|]. intros [= <-]. done. Qed.

End StringFacts.

(** ** scrap.py: truncation of the text *)

Section Truncation.
Import Scrap.
Variables (el : element) (max_text_len : Z).

(** Text at or below the limit is emitted as normalized. *)
Lemma control_text_short :
  py_len (_normalize_text (get_text (lit " ") el)) <= max_text_len ->
  control_text el max_text_len = _normalize_text (get_text (lit " ") el).
Proof.
  intros H. unfold control_text.
  destruct (Z.gtb_spec (py_len (_normalize_text (get_text (lit " ") el)))
                       max_text_len); [lia|].
  by rewrite andb_false_r.
Qed.

(** Longer text is cut and the literal of the source is appended. *)
Lemma control_text_long :
  _normalize_text (get_text (lit " ") el) <> [] ->
  max_text_len < py_len (_normalize_text (get_text (lit " ") el)) ->
  control_text el max_text_len
  = slice_to (_normalize_text (get_text (lit " ") el)) (max_text_len - 1)
    ++ ELLIPSIS.
Proof.
  intros Hne H. unfold control_text.
  destruct (Z.gtb_spec (py_len (_normalize_text (get_text (lit " ") el)))
                       max_text_len); [|lia].
  apply truthy_true in Hne. by rewrite Hne.
Qed.

(** With a positive limit the cut keeps the first [max_text_len - 1]
    characters. *)
Lemma control_text_prefix :
  1 <= max_text_len < py_len (_normalize_text (get_text (lit " ") el)) ->
  control_text el max_text_len
  = take (Z.to_nat (max_text_len - 1)) (_normalize_text (get_text (lit " ") el))
    ++ ELLIPSIS.
Proof.
  intros H. rewrite control_text_long; [| |lia].
  - by rewrite slice_to_take by lia.
  - intros E. rewrite E in H. unfold py_len in H. simpl in H. lia.
Qed.

(** With a positive limit the truncated text is two characters longer
    than the limit: the appended literal has three code points. *)
Lemma control_text_long_len :
  1 <= max_text_len < py_len (_normalize_text (get_text (lit " ") el)) ->
  py_len (control_text el max_text_len) = max_text_len + 2.
Proof.
  intros H. rewrite control_text_long; [| |lia].
  - rewrite py_len_app, slice_to_len by lia. unfold ELLIPSIS, py_len. simpl. lia.
  - intros E. rewrite E in H. unfold py_len in H. simpl in H. lia.
Qed.

(** The truncated text ends with the literal, whatever the limit. *)
Lemma control_text_long_suffix :
  _normalize_text (get_text (lit " ") el) <> [] ->
  max_text_len < py_len (_normalize_text (get_text (lit " ") el)) ->
  exists prefix, control_text el max_text_len = prefix ++ ELLIPSIS.
Proof. intros Hne H. eexists. by apply control_text_long. Qed.

End Truncation.

(** C1: the scenario of the specification, a button holding a text node of
    100 characters with [max_text_len = 80].  The code emits 82
    characters, the first 79 of the text followed by the three code
    points of the literal, where the claim requires 80. *)
Lemma truncation_scenario_emits_82 :
  let doc := [Tag (lit "button") [] [NavigableString (repeat 97%N 100)]] in
  Scrap.extract_controls_soup doc 80
  = Ok [Scrap.mkControlItem (lit "button")
          (Some (repeat 97%N 79 ++ [226%N; 8364%N; 166%N])) None]
  /\ length (repeat 97%N 79 ++ [226%N; 8364%N; 166%N]) = 82%nat.
Proof. split; vm_compute; reflexivity. Qed.

(** ** scrap.py: the loop over the selected elements *)

Section Loop.
Import Scrap.
Implicit Types (el : element) (els : list element) (m : Z)
               (items : list ControlItem).

Lemma extract_loop_app els1 els2 m items :
  extract_loop (els1 ++ els2) m items
  = (r <-! extract_loop els1 m items; extract_loop els2 m r).
Proof.
  revert items. induction els1 as [|el els1 IH]; intros items; [done|].
  cbn [app extract_loop]. destruct (control_item el m) as [[it|]|e]; cbn [bind].
  - apply IH.
  - apply IH.
  - done.
Qed.

(** An element for which the body appends nothing leaves no trace in
    the result. *)
Lemma extract_loop_skip els1 el els2 m acc items :
  (forall it, control_item el m <> Ok (Some it)) ->
  extract_loop (els1 ++ el :: els2) m acc = Ok items ->
  extract_loop (els1 ++ els2) m acc = Ok items.
Proof.
  intros Hno. rewrite !extract_loop_app.
  destruct (extract_loop els1 m acc) as [r|e]; cbn [bind]; [|done].
  cbn [extract_loop]. destruct (control_item el m) as [[it|]|e]; cbn [bind].
  - by destruct (Hno it).
  - done.
  - done.
Qed.

(** The result of the loop, read off the bodies: each element
    contributes what its body yields, in the order of the elements. *)
Lemma extract_loop_Ok els m acc items :
  extract_loop els m acc = Ok items <->
  exists rs, Forall2 (fun el r => control_item el m = Ok r) els rs
             /\ items = acc ++ omap id rs.
Proof.
  revert acc. induction els as [|el els IH]; intros acc; cbn [extract_loop].
  - split.
    + intros [= <-]. exists []. split; [constructor | by rewrite app_nil_r].
    + intros (rs & Hrs & ->). inversion Hrs; subst. by rewrite app_nil_r.
  - destruct (control_item el m) as [[it|]|e] eqn:Hel; cbn [bind].
    + rewrite IH. split.
      * intros (rs & Hrs & ->). exists (Some it :: rs).
        split; [by constructor|]. by rewrite <- app_assoc.
      * intros (rs & Hrs & ->). inversion Hrs as [|? r ? rs' Hr Hrs']; subst.
        assert (r = Some it) as -> by congruence.
        exists rs'. split; [done|]. by rewrite <- app_assoc.
    + rewrite IH. split.
      * intros (rs & Hrs & ->). exists (None :: rs). split; [by constructor|done].
      * intros (rs & Hrs & ->). inversion Hrs as [|? r ? rs' Hr Hrs']; subst.
        assert (r = None) as -> by congruence.
        exists rs'. split; done.
    + split; [done|]. intros (rs & Hrs & _).
      inversion Hrs as [|? r ? rs' Hr Hrs']; subst. congruence.
Qed.

(** The loop raises only where a body raises. *)
Lemma extract_loop_total els m acc :
  Forall (fun el => exists h, _is_hidden el = Ok h) els ->
  exists items, extract_loop els m acc = Ok items.
Proof.
  intros H. revert acc. induction H as [|el els [h Hh] _ IH]; intros acc.
  - by exists acc.
  - cbn [extract_loop]. unfold control_item. rewrite Hh. cbn [bind].
    destruct h; [apply IH|].
    destruct (negb _ && negb _); cbn [bind]; apply IH.
Qed.

End Loop.

(** ** scrap.py: hidden elements *)

Section Hidden.
Import Scrap.
Implicit Types (el : element) (m : Z).

Lemma or_empty_str s : or_empty (Some (AttrStr s)) = AttrStr s.
Proof. by destruct s. Qed.

Lemma is_hidden_aria el s :
  el_get el (lit "aria-hidden") = Some (AttrStr s) ->
  py_lower s = lit "true" ->
  _is_hidden el = Ok true.
Proof.
  intros Hget Hlow. unfold _is_hidden.
  rewrite Hget, or_empty_str. cbn [lower_of bind].
  by rewrite decide_True.
Qed.

(** [_is_hidden] never answers "shown" for an element the rule of the
    specification hides; it answers "hidden" unless the [aria-hidden]
    value is a list, on which [.lower()] raises. *)
Lemma is_hidden_by_spec el :
  hidden_by_spec el -> _is_hidden el <> Ok false.
Proof.
  intros [(s & Hget & Hlow)|(Hname & s & Hget & Hlow)].
  - by rewrite (is_hidden_aria _ _ Hget Hlow).
  - unfold _is_hidden.
    destruct (lower_of (or_empty (el_get el (lit "aria-hidden"))))
      as [a|e]; cbn [bind]; [|done].
    case_decide; [done|].
    rewrite decide_True by done.
    rewrite Hget, or_empty_str. cbn [lower_of bind].
    by rewrite decide_True.
Qed.

Lemma control_item_hidden el m :
  _is_hidden el <> Ok false ->
  forall it, control_item el m <> Ok (Some it).
Proof.
  intros H it. unfold control_item.
  destruct (_is_hidden el) as [[|]|e]; cbn [bind]; congruence.
Qed.

(** On an element whose [aria-hidden] and [type] values are strings (or
    missing), as for every tree the parser builds, [_is_hidden] returns. *)
Lemma is_hidden_total el :
  (forall l, el_get el (lit "aria-hidden") <> Some (AttrList l)) ->
  (forall l, el_get el (lit "type") <> Some (AttrList l)) ->
  exists h, _is_hidden el = Ok h.
Proof.
  intros Ha Ht. unfold _is_hidden.
  assert (forall k, (forall l, el_get el k <> Some (AttrList l)) ->
            exists s, or_empty (el_get el k) = AttrStr s) as Hstr.
  { intros k Hk. destruct (el_get el k) as [[|s|l]|].
    - by exists [].
    - rewrite or_empty_str. eauto.
    - by destruct (Hk l).
    - by exists []. }
  destruct (Hstr _ Ha) as [a ->]. cbn [lower_of bind].
  case_decide; [eauto|]. case_decide; [|eauto].
  destruct (Hstr _ Ht) as [t ->]. cbn [lower_of bind].
  case_decide; eauto.
Qed.

End Hidden.

(** ** The document tree *)

Section Tree.
Import Scrap.

(** Induction over a tree, with the property at hand for every child. *)
Lemma node_forall_ind (P : node -> Prop) :
  (forall nm a ch, Forall P ch -> P (Tag nm a ch)) ->
  (forall s, P (NavigableString s)) ->
  (forall s, P (Comment s)) ->
  (forall c s, P (OtherString c s)) ->
  forall n, P n.
Proof.
  intros HT HS HC HO. fix IH 1.
  intros [nm a ch|s|s|s]; [|apply HS|apply HC|apply HO].
  apply HT. induction ch as [|c ch IHch]; constructor; [apply IH | apply IHch].
Qed.

Lemma elem_of_flat_map {A B} (f : A -> list B) (l : list A) (y : B) :
  y ∈ flat_map f l <-> exists x, x ∈ l /\ y ∈ f x.
Proof.
  rewrite list_elem_of_In, in_flat_map.
  split; intros (x & Hx & Hy); exists x; by rewrite ?list_elem_of_In in *.
Qed.



Lemma descendant_tags_app (l1 l2 : list node) :
  descendant_tags (l1 ++ l2) = descendant_tags l1 ++ descendant_tags l2.
Proof. apply flat_map_app. Qed.

Lemma descendant_tags_cons (n : node) (l : list node) :
  descendant_tags (n :: l) = descendant_tags_of n ++ descendant_tags l.
Proof. reflexivity. Qed.

(** Taking the comments out leaves the sequence of start tags as it is. *)
Lemma remove_comments_of_heads (n : node) :
  map el_head (descendant_tags (remove_comments_of n))
  = map el_head (descendant_tags_of n).
Proof.
  induction n as [nm a ch IH|s|s|s] using node_forall_ind; try reflexivity.
  cbn [remove_comments_of]. rewrite descendant_tags_cons.
  cbn [descendant_tags_of descendant_tags flat_map]. rewrite app_nil_r.
  cbn [map]. unfold el_head at 1 3. cbn [el_name el_attrs]. f_equal.
  induction IH as [|c ch Hc _ IHch]; [done|].
  cbn [flat_map].
  change (flat_map descendant_tags_of ?l) with (descendant_tags l) in *.
  rewrite descendant_tags_app, !map_app, Hc. by f_equal.
Qed.

Lemma remove_comments_heads (soup : list node) :
  map el_head (descendant_tags (_remove_comments soup))
  = map el_head (descendant_tags soup).
Proof.
  induction soup as [|n soup IHs]; [done|].
  unfold _remove_comments in *. cbn [flat_map].
  rewrite descendant_tags_app, descendant_tags_cons, !map_app, IHs.
  by rewrite remove_comments_of_heads.
Qed.

(** Decomposing the noise elements leaves a subsequence of the start
    tags, in their order. *)
Lemma remove_noise_of_heads (n : node) :
  map el_head (descendant_tags (remove_noise_of n))
  `sublist_of` map el_head (descendant_tags_of n).
Proof.
  induction n as [nm a ch IH|s|s|s] using node_forall_ind; try reflexivity.
  cbn [remove_noise_of]. destruct (is_noise nm); [apply sublist_nil_l|].
  rewrite descendant_tags_cons.
  cbn [descendant_tags_of descendant_tags flat_map]. rewrite app_nil_r.
  cbn [map]. unfold el_head at 1 3. cbn [el_name el_attrs]. apply sublist_skip.
  induction IH as [|c ch Hc _ IHch]; [done|].
  cbn [flat_map].
  change (flat_map descendant_tags_of ?l) with (descendant_tags l) in *.
  rewrite descendant_tags_app, !map_app. by apply sublist_app.
Qed.

Lemma remove_noise_heads (soup : list node) :
  map el_head (descendant_tags (_remove_noise soup))
  `sublist_of` map el_head (descendant_tags soup).
Proof.
  induction soup as [|n soup IHs]; [done|].
  unfold _remove_noise in *. cbn [flat_map].
  rewrite descendant_tags_app, descendant_tags_cons, !map_app.
  apply sublist_app; [apply remove_noise_of_heads | exact IHs].
Qed.

(** The start tags of the cleaned tree are a subsequence of those of the
    parsed tree. *)
Lemma cleaned_heads (soup : list node) :
  map el_head (descendant_tags (_remove_noise (_remove_comments soup)))
  `sublist_of` map el_head (descendant_tags soup).
Proof.
  etrans; [apply remove_noise_heads|]. by rewrite remove_comments_heads.
Qed.

End Tree.

(** ** Positions in the document and the traversal *)

Section Positions.
Import Scrap.
Implicit Types (n : node) (ns ch : list node) (el : element)
               (p q : position) (ps : list position).

Lemma comes_before_shift p q :
  comes_before p q -> comes_before (shift p) (shift q).
Proof.
  destruct p, q; cbn; try done.
  intros [?|[-> ?]]; [left; lia | by right].
Qed.

Lemma comes_before_cons i p q :
  comes_before p q -> comes_before (i :: p) (i :: q).
Proof. cbn. by right. Qed.

Lemma element_at_nonempty ns p el : element_at ns p = Some el -> p <> [].
Proof. by destruct p. Qed.

Lemma element_at_cons_S n ns i q :
  element_at (n :: ns) (S i :: q) = element_at ns (i :: q).
Proof. reflexivity. Qed.

Lemma noise_on_path_cons_S n ns i q :
  noise_on_path (n :: ns) (S i :: q) = noise_on_path ns (i :: q).
Proof. reflexivity. Qed.

Lemma element_at_below nm a ch ns q :
  q <> [] -> element_at (Tag nm a ch :: ns) (0%nat :: q) = element_at ch q.
Proof. by destruct q. Qed.

Lemma noise_on_path_below nm a ch ns q :
  noise_on_path (Tag nm a ch :: ns) (0%nat :: q)
  = is_noise nm || noise_on_path ch q.
Proof. reflexivity. Qed.

(** The two passes, node by node. *)
Lemma cleaned_cons n ns :
  _remove_noise (_remove_comments (n :: ns))
  = _remove_noise (remove_comments_of n) ++ _remove_noise (_remove_comments ns).
Proof. unfold _remove_noise, _remove_comments. cbn [flat_map]. apply flat_map_app. Qed.

Lemma cleaned_tag nm a ch :
  _remove_noise (remove_comments_of (Tag nm a ch))
  = if is_noise nm then []
    else [Tag nm a (_remove_noise (_remove_comments ch))].
Proof.
  cbn [remove_comments_of]. unfold _remove_noise at 1.
  cbn [flat_map remove_noise_of]. rewrite app_nil_r.
  by destruct (is_noise nm).
Qed.

Lemma traversal_positions_nonempty ns ps :
  traversal_positions ns ps -> Forall (fun p => p <> []) ps.
Proof.
  intros (_ & Hall & _).
  induction Hall as [|p el' ps els (el & Hel & _) _ IH]; constructor; [|done].
  by eapply element_at_nonempty.
Qed.

(** A node that leaves no element in the cleaned tree. *)
Lemma traversal_positions_skip n ns ps :
  descendant_tags (_remove_noise (remove_comments_of n)) = [] ->
  (forall q el, element_at (n :: ns) (0%nat :: q) = Some el ->
                noise_on_path (n :: ns) (0%nat :: q) = true) ->
  traversal_positions ns ps -> traversal_positions (n :: ns) (map shift ps).
Proof.
  intros Hnone Hnoise (Hsorted & Hall & Hcompl). split_and!.
  - eapply StronglySorted_fmap; [|exact Hsorted]. apply comes_before_shift.
  - rewrite cleaned_cons, descendant_tags_app, Hnone. cbn [app].
    apply Forall2_fmap_l. eapply Forall2_impl; [exact Hall|].
    intros [|i q] el' (el & Hel & Hn & ->); [done|].
    exists el. by split_and!.
  - intros [|[|i] q] el Hel Hn; [done| |].
    + by rewrite (Hnoise _ _ Hel) in Hn.
    + apply list_elem_of_fmap. exists (i :: q). split; [done|].
      by eapply Hcompl.
Qed.

(** An element that stays, with what is below it. *)
Lemma traversal_positions_tag nm a ch ns ps_ch ps :
  is_noise nm = false ->
  traversal_positions ch ps_ch -> traversal_positions ns ps ->
  traversal_positions (Tag nm a ch :: ns)
    ([0%nat] :: map (cons 0%nat) ps_ch ++ map shift ps).
Proof.
  intros Hnm Hch Hns.
  pose proof (traversal_positions_nonempty _ _ Hch) as Hne_ch.
  pose proof (traversal_positions_nonempty _ _ Hns) as Hne.
  destruct Hch as (Hsorted_ch & Hall_ch & Hcompl_ch).
  destruct Hns as (Hsorted & Hall & Hcompl).
  rewrite Forall_forall in Hne_ch, Hne. split_and!.
  - constructor.
    + apply StronglySorted_app_2.
      * intros x1 x2 (q & -> & Hq)%list_elem_of_fmap
          (p & -> & Hp)%list_elem_of_fmap.
        specialize (Hne p Hp). destruct p as [|i p]; [done|]. cbn. lia.
      * eapply StronglySorted_fmap; [|exact Hsorted_ch].
        intros x y. apply comes_before_cons.
      * eapply StronglySorted_fmap; [|exact Hsorted]. apply comes_before_shift.
    + apply Forall_app. split; apply Forall_forall.
      * intros x (q & -> & Hq)%list_elem_of_fmap.
        specialize (Hne_ch q Hq). destruct q; [done|]. cbn. by right.
      * intros x (p & -> & Hp)%list_elem_of_fmap.
        specialize (Hne p Hp). destruct p as [|i p]; [done|]. cbn. lia.
  - rewrite cleaned_cons, cleaned_tag, Hnm, descendant_tags_app.
    rewrite descendant_tags_cons. cbn [descendant_tags_of descendant_tags flat_map].
    rewrite app_nil_r. cbn [app].
    change (flat_map descendant_tags_of ?l) with (descendant_tags l).
    constructor; [|apply Forall2_app].
    + exists (mkElement nm a ch). split_and!; [done| |done].
      unfold noise_on_path. cbn. by rewrite Hnm.
    + apply Forall2_fmap_l. eapply Forall2_impl; [exact Hall_ch|].
      intros q el' (el & Hel & Hn & ->). exists el. split_and!; [|  |done].
      * rewrite element_at_below; [done|]. by eapply element_at_nonempty.
      * by rewrite noise_on_path_below, Hnm, Hn.
    + apply Forall2_fmap_l. eapply Forall2_impl; [exact Hall|].
      intros [|i q] el' (el & Hel & Hn & ->); [done|].
      exists el. by split_and!.
  - intros [|[|i] q] el Hel Hn; [done| |].
    + destruct q as [|j q]; [left|]. right.
      apply elem_of_app. left. apply list_elem_of_fmap.
      exists (j :: q). split; [done|].
      rewrite noise_on_path_below, Hnm in Hn.
      rewrite element_at_below in Hel by done. by eapply Hcompl_ch.
    + right. apply elem_of_app. right. apply list_elem_of_fmap.
      exists (i :: q). split; [done|]. by eapply Hcompl.
Qed.

Lemma traversal_positions_children ns :
  Forall (fun n => forall nm a ch, n = Tag nm a ch ->
                     exists ps, traversal_positions ch ps) ns ->
  exists ps, traversal_positions ns ps.
Proof.
  induction 1 as [|n ns Hn _ (ps & Hps)].
  - exists []. split_and!; [constructor | constructor |].
    by intros [|i q] el.
  - destruct n as [nm a ch|s|s|c s].
    + destruct (Hn nm a ch eq_refl) as (ps_ch & Hch).
      destruct (is_noise nm) eqn:Hnm.
      * exists (map shift ps). apply traversal_positions_skip; [|
                                 |done].
        -- by rewrite cleaned_tag, Hnm.
        -- intros q el _. by rewrite noise_on_path_below, Hnm.
      * eexists. by apply traversal_positions_tag.
    + exists (map shift ps). by apply traversal_positions_skip.
    + exists (map shift ps). by apply traversal_positions_skip.
    + exists (map shift ps). by apply traversal_positions_skip.
Qed.

(** Every document has the positions of its traversal. *)
Lemma traversal_positions_exist ns : exists ps, traversal_positions ns ps.
Proof.
  apply traversal_positions_children, Forall_forall. intros n _.
  induction n as [nm a ch IH|s|s|c s] using node_forall_ind; try done.
  intros ? ? ? [= <- <- <-]. by apply traversal_positions_children.
Qed.


Lemma matches_cleaned el :
  matches_control_selector (cleaned el) = matches_control_selector el.
Proof. reflexivity. Qed.

(** The positions of the elements the loop emits an item for. *)
Lemma emitted_positions ns m ps (els : list element)
    (rs : list (option ControlItem)) :
  StronglySorted comes_before ps ->
  Forall2 (fun p el' => exists el, element_at ns p = Some el
                                   /\ noise_on_path ns p = false
                                   /\ el' = cleaned el) ps els ->
  Forall2 (fun el r => control_item el m = Ok r)
          (filter (fun el => matches_control_selector el = true) els) rs ->
  exists ps',
    ps' `sublist_of` ps
    /\ StronglySorted comes_before ps'
    /\ Forall2 (fun p it => exists el,
                   element_at ns p = Some el
                   /\ noise_on_path ns p = false
                   /\ matches_control_selector el = true
                   /\ control_item (cleaned el) m = Ok (Some it))
         ps' (omap id rs)
    /\ (forall p el it,
          p ∈ ps -> element_at ns p = Some el ->
          matches_control_selector el = true ->
          control_item (cleaned el) m = Ok (Some it) -> p ∈ ps').
Proof.
  intros Hsorted Hall. revert rs.
  induction Hall as [|p el' ps els (el & Hel & Hn & ->) Hall IH]; intros rs Hrs.
  - cbn in Hrs. apply Forall2_nil_inv_l in Hrs as ->.
    exists []. split_and!; [done | constructor | constructor |].
    by intros p el it ?%elem_of_nil.
  - apply StronglySorted_inv in Hsorted as [Hsorted Hp].
    rewrite filter_cons, matches_cleaned in Hrs.
    destruct (decide (matches_control_selector el = true)) as [Hm|Hm].
    + apply Forall2_cons_inv_l in Hrs as (r & rs' & Hr & Hrs & ->).
      destruct (IH Hsorted rs' Hrs) as (ps' & Hsub & Hs' & Hall' & Hcompl).
      destruct r as [it|]; cbn [omap id].
      * exists (p :: ps'). split_and!.
        -- by apply sublist_skip.
        -- constructor; [done|]. apply Forall_forall. intros x Hx.
           rewrite Forall_forall in Hp. apply Hp.
           by eapply elem_of_sublist.
        -- constructor; [|done]. exists el. by split_and!.
        -- intros p0 el0 it0 [->|Hin]%elem_of_cons Hel0 Hm0 Hc0; [left|].
           right. by eapply Hcompl.
      * exists ps'. split_and!; [by apply sublist_cons | done | done |].
        intros p0 el0 it0 [->|Hin]%elem_of_cons Hel0 Hm0 Hc0.
        -- rewrite Hel in Hel0. injection Hel0 as <-. congruence.
        -- by eapply Hcompl.
    + destruct (IH Hsorted rs Hrs) as (ps' & Hsub & Hs' & Hall' & Hcompl).
      exists ps'. split_and!; [by apply sublist_cons | done | done |].
      intros p0 el0 it0 [->|Hin]%elem_of_cons Hel0 Hm0 Hc0.
      * rewrite Hel in Hel0. injection Hel0 as <-. done.
      * by eapply Hcompl.
Qed.

End Positions.

(** ** scrap.py: what the extractor emits *)

Section Extractor.
Import Scrap Scenarios.
Implicit Types (html_parser : pystr -> list node) (html : pystr) (m : Z)
               (el : element) (items : list ControlItem).

Lemma extract_controls_inventory_unfold html_parser html m :
  extract_controls_inventory html_parser html m
  = extract_loop (selected (html_parser html)) m [].
Proof. reflexivity. Qed.

(** C3: an element whose own [aria-hidden] value lowers to "true", or
    an input whose [type] value lowers to "hidden", never appears in the
    output: the output is that of the loop over the other selected
    elements, whatever the attributes and text of the element.  The
    document [<input type="hidden" value="abc">] yields the empty
    sequence. *)
Theorem hidden_elements_excluded :
  (forall html_parser html m els1 el els2 items,
      selected (html_parser html) = els1 ++ el :: els2 ->
      hidden_by_spec el ->
      extract_controls_inventory html_parser html m = Ok items ->
      (forall it, control_item el m <> Ok (Some it))
      /\ extract_loop (els1 ++ els2) m [] = Ok items)
  /\ (forall m, extract_controls_soup hidden_input_doc m = Ok []).
Proof.
  split.
  - intros html_parser html m els1 el els2 items Hsel Hhid Hex.
    rewrite extract_controls_inventory_unfold, Hsel in Hex.
    pose proof (control_item_hidden el m (is_hidden_by_spec el Hhid)) as Hno.
    split; [done|]. by eapply extract_loop_skip.
  - intros m. reflexivity.
Qed.

Lemma hidden_elements_excluded_witness :
  let el := mkElement (lit "button")
              [(lit "aria-hidden", AttrStr (lit "TrUe"));
               (lit "id", AttrStr (lit "b"))]
              [NavigableString (lit "Hi")] in
  let els2 := [mkElement (lit "a") [] [];
               mkElement (lit "input")
                 [(lit "type", AttrStr (lit "text"));
                  (lit "name", AttrStr (lit "q"))] []] in
  (forall it, control_item el 80 <> Ok (Some it))
  /\ extract_loop ([] ++ els2) 80 [] = Ok [query_item].
Proof.
  intros el els2.
  apply (proj1 hidden_elements_excluded (fun _ => mixed_doc) [] 80 [] el els2).
  - reflexivity.
  - left. exists (lit "TrUe"). split; reflexivity.
  - reflexivity.
Defined.

Lemma control_item_Some el m it :
  control_item el m = Ok (Some it) ->
  _is_hidden el = Ok false
  /\ it = mkControlItem (el_name el) (or_none (control_text el m))
                        (or_none (_filter_attrs el KEEP_ATTRS))
  /\ (control_text el m <> [] \/ _filter_attrs el KEEP_ATTRS <> []).
Proof.
  unfold control_item.
  destruct (_is_hidden el) as [[|]|e]; cbn [bind]; try done.
  destruct (truthy (control_text el m)) eqn:Ht;
    destruct (truthy (_filter_attrs el KEEP_ATTRS)) eqn:Ha;
    cbn [negb andb]; try done; intros [= <-]; split_and!; try done.
  - left. by apply truthy_true.
  - left. by apply truthy_true.
  - right. by apply truthy_true.
Qed.


Lemma control_text_empty el m :
  _normalize_text (get_text (lit " ") el) = [] -> control_text el m = [].
Proof. intros H. unfold control_text. by rewrite H. Qed.

(** C5: every emitted item has non-empty text or non-empty attributes,
    and a selected element whose normalized text and filtered attribute
    mapping are both empty is absent from the output: the output is that
    of the loop over the other selected elements. *)
Theorem items_have_text_or_attrs :
  (forall html_parser html m items,
      extract_controls_inventory html_parser html m = Ok items ->
      Forall (fun it => (exists t, text it = Some t /\ t <> [])
                        \/ (exists a, attrs it = Some a /\ a <> [])) items)
  /\ (forall html_parser html m els1 el els2 items,
      selected (html_parser html) = els1 ++ el :: els2 ->
      _normalize_text (get_text (lit " ") el) = [] ->
      _filter_attrs el KEEP_ATTRS = [] ->
      extract_controls_inventory html_parser html m = Ok items ->
      (forall it, control_item el m <> Ok (Some it))
      /\ extract_loop (els1 ++ els2) m [] = Ok items).
Proof.
  split.
  - intros html_parser html m items Hex.
    rewrite extract_controls_inventory_unfold in Hex.
    apply extract_loop_Ok in Hex as (rs & Hrs & ->). cbn [app].
    induction Hrs as [|el r els rs Hel _ IH]; [constructor|].
    destruct r as [it|]; cbn; [|exact IH].
    constructor; [|exact IH].
    apply control_item_Some in Hel as (_ & -> & [Hne|Hne]); cbn [text attrs].
    + left. destruct (control_text el m) eqn:E; [done|].
      eexists. split; [reflexivity | done].
    + right. destruct (_filter_attrs el KEEP_ATTRS) eqn:E; [done|].
      eexists. split; [reflexivity | done].
  - intros html_parser html m els1 el els2 items Hsel Htxt Hattrs Hex.
    rewrite extract_controls_inventory_unfold, Hsel in Hex.
    assert (forall it, control_item el m <> Ok (Some it)) as Hno.
    { intros it Hit. apply control_item_Some in Hit as (_ & _ & [Hne|Hne]).
      - by rewrite control_text_empty in Hne.
      - done. }
    split; [done|]. by eapply extract_loop_skip.
Qed.

Lemma items_have_text_or_attrs_witness :
  Forall (fun it => (exists t, text it = Some t /\ t <> [])
                    \/ (exists a, attrs it = Some a /\ a <> []))
         [query_item]
  /\ ((forall it, control_item (mkElement (lit "a") [] []) 80 <> Ok (Some it))
      /\ extract_loop
           ([mkElement (lit "button")
               [(lit "aria-hidden", AttrStr (lit "TrUe"));
                (lit "id", AttrStr (lit "b"))]
               [NavigableString (lit "Hi")]]
            ++ [mkElement (lit "input")
                  [(lit "type", AttrStr (lit "text"));
                   (lit "name", AttrStr (lit "q"))] []]) 80 []
         = Ok [query_item]).
Proof.
  destruct items_have_text_or_attrs as [H1 H2]. split.
  - apply (H1 (fun _ => mixed_doc) [] 80). reflexivity.
  - apply (H2 (fun _ => mixed_doc) [] 80); reflexivity.
Defined.

(** The items come from a subsequence of the elements of the loop. *)
Lemma emitted_sublist (els : list element) (rs : list (option ControlItem)) m :
  Forall2 (fun el r => control_item el m = Ok r) els rs ->
  exists els', els' `sublist_of` els
    /\ Forall2 (fun el it => control_item el m = Ok (Some it)) els' (omap id rs).
Proof.
  induction 1 as [|el r els rs Hel _ (els' & Hsub & Hall)].
  - exists []. split; [constructor | constructor].
  - destruct r as [it|]; cbn.
    + exists (el :: els'). split; [by apply sublist_skip | by constructor].
    + exists els'. split; [by apply sublist_cons | done].
Qed.

Lemma emitted_omap (els : list element) (rs : list (option ControlItem)) m :
  Forall2 (fun el r => control_item el m = Ok r) els rs ->
  omap id rs
  = omap (fun el => match control_item el m with
                    | Ok r => r
                    | Raise _ => None
                    end) els.
Proof.
  induction 1 as [|el r els rs Hel _ IH]; [done|].
  cbn. rewrite Hel, IH. done.
Qed.

(** C6: the output follows the document order.  The items are emitted,
    one each and in the same order, by a subsequence of the depth-first
    traversal of the cleaned tree, all of whose elements match the
    control selector; their start tags come in the order of the
    depth-first traversal of the document as parsed; no selected element
    that yields an item is left out.  In terms of the document alone:
    the items belong, one by one, to positions of the document that come
    in document order (an element before what is inside it and before
    what starts after it), each the position of an element that matches
    the selector, has no noise element around it and yields the item;
    and every such position is among them.  The document of the scenario
    yields the single item of the link. *)
Theorem output_in_document_order :
  (forall html_parser html m items,
      extract_controls_inventory html_parser html m = Ok items ->
      (exists els,
          els `sublist_of`
            descendant_tags (_remove_noise (_remove_comments (html_parser html)))
          /\ map el_head els
             `sublist_of` map el_head (descendant_tags (html_parser html))
          /\ Forall (fun el => matches_control_selector el = true) els
          /\ Forall2 (fun el it => control_item el m = Ok (Some it)) els items)
      /\ items = omap (fun el => match control_item el m with
                                 | Ok r => r
                                 | Raise _ => None
                                 end) (selected (html_parser html))
      /\ (exists ps : list position,
            StronglySorted comes_before ps
            /\ Forall2 (fun p it => exists el,
                           element_at (html_parser html) p = Some el
                           /\ noise_on_path (html_parser html) p = false
                           /\ matches_control_selector el = true
                           /\ control_item (cleaned el) m = Ok (Some it))
                 ps items
            /\ (forall p el it,
                  element_at (html_parser html) p = Some el ->
                  noise_on_path (html_parser html) p = false ->
                  matches_control_selector el = true ->
                  control_item (cleaned el) m = Ok (Some it) -> p ∈ ps)))
  /\ extract_controls_soup hidden_button_and_link_doc 80 = Ok [link_item].
Proof.
  split; [|reflexivity].
  intros html_parser html m items Hex.
  rewrite extract_controls_inventory_unfold in Hex.
  apply extract_loop_Ok in Hex as (rs & Hrs & ->). cbn [app].
  split_and!; [|by apply emitted_omap|].
  - destruct (emitted_sublist _ _ _ Hrs) as (els & Hsub & Hall).
    assert (els `sublist_of`
              descendant_tags (_remove_noise (_remove_comments (html_parser html))))
      as Hsub' by (etrans; [exact Hsub | apply sublist_filter]).
    exists els. split_and!; [done| | |done].
    + etrans; [|apply cleaned_heads]. by apply fmap_sublist.
    + apply Forall_forall. intros el Hel.
      eapply elem_of_sublist in Hel; [|exact Hsub].
      unfold selected, select in Hel.
      by apply list_elem_of_filter in Hel as [? _].
  - destruct (traversal_positions_exist (html_parser html))
      as (ps & Hsorted & Hall & Hcompl).
    destruct (emitted_positions _ m _ _ rs Hsorted Hall Hrs)
      as (ps' & _ & Hsorted' & Hall' & Hcompl').
    exists ps'. split_and!; [done | done |].
    intros p el it Hel Hn Hm Hit. eapply Hcompl'; [|done..].
    by eapply Hcompl.
Qed.

Lemma output_in_document_order_witness :
  let items :=
    [mkControlItem (lit "label") (Some (lit "Name")) None;
     mkControlItem (lit "input") None (Some [(lit "name", lit "n")]);
     mkControlItem (lit "div") (Some (lit "Go now"))
       (Some [(lit "role", lit "button")])] in
  (exists els,
      els `sublist_of`
        descendant_tags (_remove_noise (_remove_comments nested_doc))
      /\ map el_head els `sublist_of` map el_head (descendant_tags nested_doc)
      /\ Forall (fun el => matches_control_selector el = true) els
      /\ Forall2 (fun el it => control_item el 80 = Ok (Some it)) els items)
  /\ items = omap (fun el => match control_item el 80 with
                             | Ok r => r
                             | Raise _ => None
                             end) (selected nested_doc)
  /\ (exists ps : list position,
        StronglySorted comes_before ps
        /\ Forall2 (fun p it => exists el,
                       element_at nested_doc p = Some el
                       /\ noise_on_path nested_doc p = false
                       /\ matches_control_selector el = true
                       /\ control_item (cleaned el) 80 = Ok (Some it))
             ps items
        /\ (forall p el it,
              element_at nested_doc p = Some el ->
              noise_on_path nested_doc p = false ->
              matches_control_selector el = true ->
              control_item (cleaned el) 80 = Ok (Some it) -> p ∈ ps)).
Proof.
  intros items.
  apply (proj1 output_in_document_order (fun _ => nested_doc) [] 80).
  reflexivity.
Defined.







End Extractor.

(** ** scrap.py: the filtered attribute mapping *)

Section FilterAttrs.
Import Scrap.
Implicit Types (el : element) (k : pystr) (keep : gset pystr).

Lemma py_startswith_spec (p s : pystr) :
  py_startswith p s = true <-> exists rest, s = p ++ rest.
Proof.
  revert s. induction p as [|a p IH]; intros s; cbn.
  - split; [intros _; by exists s | done].
  - destruct s as [|b s].
    + split; [done | by intros [rest ?]].
    + rewrite andb_true_iff, N.eqb_eq, IH. split.
      * intros [-> [rest ->]]. by exists rest.
      * intros [rest [= -> ->]]. split; [done | by exists rest].
Qed.

(** The test of the code is the rule of the specification. *)
Lemma attr_kept_spec k : attr_kept KEEP_ATTRS k = true <-> kept_by_spec k.
Proof.
  unfold attr_kept, kept_by_spec.
  rewrite orb_true_iff, bool_decide_eq_true, py_startswith_spec.
  unfold KEEP_ATTRS. rewrite elem_of_list_to_set. done.
Qed.

Lemma keys_omap_kept_pair keep (d : dict attr_value) k :
  k ∈ keys (omap (kept_pair keep) d) -> k ∈ keys d.
Proof.
  unfold keys. rewrite !list_elem_of_fmap.
  intros ([k' s] & -> & Hin). apply list_elem_of_omap in Hin as ([k0 v] & Hin & Hkv).
  exists (k0, v). split; [|done]. unfold kept_pair in Hkv. cbn in *.
  destruct (attr_kept keep k0); [|done].
  destruct (attr_string v); cbn in Hkv; [|done]. by injection Hkv as -> _.
Qed.

(** The loop appends the contribution of each attribute, in order. *)
Lemma filter_attrs_loop_spec keep (items : dict attr_value) (out : dict pystr) :
  dict_wf items ->
  (forall k, k ∈ keys items -> k ∉ keys out) ->
  filter_attrs_loop keep items out = out ++ omap (kept_pair keep) items.
Proof.
  unfold dict_wf. revert out.
  induction items as [|[k v] items IH]; intros out Hwf Hfresh.
  - cbn. by rewrite app_nil_r.
  - cbn [keys map fst] in Hwf. apply NoDup_cons in Hwf as [Hk Hwf].
    assert (k ∉ keys out) as Hko by (apply Hfresh; left).
    assert (forall out' : dict pystr, keys out' = keys out \/ keys out' = keys out ++ [k] ->
              forall k', k' ∈ keys items -> k' ∉ keys out') as Hnext.
    { intros out' Hout' k' Hk'. assert (k' ∉ keys out) by (apply Hfresh; by right).
      destruct Hout' as [->| ->]; [done|].
      rewrite not_elem_of_app, list_elem_of_singleton. split; [done|].
      intros ->. done. }
    cbn [filter_attrs_loop omap list_omap]. unfold kept_pair at 1. cbn [fst snd].
    destruct (attr_kept keep k); [|apply IH; auto].
    destruct v as [|s|l]; cbn [attr_string fmap option_fmap option_map].
    + apply IH; auto.
    + rewrite IH; [|done|].
      * rewrite dict_set_fresh by done. by rewrite <- app_assoc.
      * apply Hnext. right. rewrite keys_dict_set. by rewrite decide_False.
    + rewrite IH; [|done|].
      * rewrite dict_set_fresh by done. by rewrite <- app_assoc.
      * apply Hnext. right. rewrite keys_dict_set. by rewrite decide_False.
Qed.

Lemma filter_attrs_omap el keep :
  dict_wf (el_attrs el) ->
  _filter_attrs el keep = omap (kept_pair keep) (el_attrs el).
Proof.
  intros Hwf. unfold _filter_attrs.
  rewrite filter_attrs_loop_spec; [done | done |].
  intros k _. apply not_elem_of_nil.
Qed.

Lemma dict_get_omap_kept_pair keep (d : dict attr_value) k :
  dict_wf d ->
  dict_get (omap (kept_pair keep) d) k
  = if attr_kept keep k then dict_get d k ≫= attr_string else None.
Proof.
  unfold dict_wf. induction d as [|[k' v] d IH]; intros Hwf.
  - cbn. by destruct (attr_kept keep k).
  - cbn [keys map fst] in Hwf. apply NoDup_cons in Hwf as [Hk Hwf].
    cbn [omap list_omap dict_get]. unfold kept_pair at 1. cbn [fst snd].
    destruct (decide (k' = k)) as [->|Hne].
    + destruct (attr_kept keep k) eqn:Hkept.
      * destruct (attr_string v) as [s|] eqn:Hs; cbn.
        -- by rewrite decide_True.
        -- rewrite Hs. apply dict_get_None. intros Hin.
           by apply keys_omap_kept_pair in Hin.
      * by apply IH.
    + destruct (attr_kept keep k'); [|by apply IH].
      destruct (attr_string v) as [s|]; cbn; [|by apply IH].
      rewrite decide_False by done. by apply IH.
Qed.

(** The lookups of the filtered mapping. *)
Lemma filter_attrs_lookup el k :
  dict_wf (el_attrs el) ->
  dict_get (_filter_attrs el KEEP_ATTRS) k
  = if attr_kept KEEP_ATTRS k then el_get el k ≫= attr_string else None.
Proof.
  intros Hwf. rewrite filter_attrs_omap by done.
  by apply dict_get_omap_kept_pair.
Qed.

(** The filtered mapping is a dictionary, whatever the element. *)
Lemma filter_attrs_loop_wf keep (items : dict attr_value) (out : dict pystr) :
  dict_wf out -> dict_wf (filter_attrs_loop keep items out).
Proof.
  revert out. induction items as [|[k v] items IH]; intros out Hout; [done|].
  cbn [filter_attrs_loop]. destruct (attr_kept keep k); [|by apply IH].
  destruct v; apply IH; try done; by apply dict_set_wf.
Qed.

Lemma filter_attrs_wf el keep : dict_wf (_filter_attrs el keep).
Proof. apply filter_attrs_loop_wf. constructor. Qed.

Lemma control_item_attrs el m it :
  control_item el m = Ok (Some it) ->
  attrs it = or_none (_filter_attrs el KEEP_ATTRS).
Proof. by intros (_ & -> & _)%control_item_Some. Qed.

(** C4: the attribute mapping of an emitted item is the filtered mapping
    of its element, absent when that is empty.  The filtered mapping
    holds, in the order of the element's attributes, exactly the
    attributes whose name is in the allow-list or starts with
    "data-test", each with its value as one string; a null value drops
    the attribute.  [data-testid] and [data-test-foo] are kept, [class]
    is not. *)
Theorem filter_attrs_keeps_allow_list el :
  dict_wf (el_attrs el) ->
  (forall m it, control_item el m = Ok (Some it) ->
      attrs it = or_none (filter_attrs_spec el))
  /\ _filter_attrs el KEEP_ATTRS = filter_attrs_spec el
  /\ (forall k, attr_kept KEEP_ATTRS k = true <-> kept_by_spec k)
  /\ (forall k, kept_by_spec k ->
        dict_get (_filter_attrs el KEEP_ATTRS) k = el_get el k ≫= attr_string)
  /\ (forall k, ~ kept_by_spec k ->
        dict_get (_filter_attrs el KEEP_ATTRS) k = None)
  /\ kept_by_spec (lit "data-testid")
  /\ ~ kept_by_spec (lit "class")
  /\ kept_by_spec (lit "data-test-foo").
Proof.
  intros Hwf. split_and!.
  - intros m it Hit. apply control_item_attrs in Hit.
    unfold filter_attrs_spec. by rewrite <- filter_attrs_omap.
  - by apply filter_attrs_omap.
  - apply attr_kept_spec.
  - intros k Hk. rewrite filter_attrs_lookup by done.
    apply attr_kept_spec in Hk. by rewrite Hk.
  - intros k Hk. rewrite filter_attrs_lookup by done.
    destruct (attr_kept KEEP_ATTRS k) eqn:E; [|done].
    by apply attr_kept_spec in E.
  - apply attr_kept_spec. by vm_compute.
  - rewrite <- attr_kept_spec. by vm_compute.
  - apply attr_kept_spec. by vm_compute.
Qed.

Lemma filter_attrs_keeps_allow_list_witness :
  let el := Scenarios.output_element in
  (forall m it, control_item el m = Ok (Some it) ->
      attrs it = or_none (filter_attrs_spec el))
  /\ _filter_attrs el KEEP_ATTRS = filter_attrs_spec el
  /\ (forall k, attr_kept KEEP_ATTRS k = true <-> kept_by_spec k)
  /\ (forall k, kept_by_spec k ->
        dict_get (_filter_attrs el KEEP_ATTRS) k = el_get el k ≫= attr_string)
  /\ (forall k, ~ kept_by_spec k ->
        dict_get (_filter_attrs el KEEP_ATTRS) k = None)
  /\ kept_by_spec (lit "data-testid")
  /\ ~ kept_by_spec (lit "class")
  /\ kept_by_spec (lit "data-test-foo").
Proof.
  intros el. apply (filter_attrs_keeps_allow_list el).
  unfold dict_wf. apply (bool_decide_unpack _). vm_compute. exact I.
Defined.



End FilterAttrs.

(** ** scrap.py: the encoder and the decoder of strings *)

Section JsonStrings.
Import Scrap.

Lemma lt_32_cases (c : N) :
  (c < 32)%N -> In c (map N.of_nat (seq 0 32)).
Proof.
  intros H. apply in_map_iff. exists (N.to_nat c).
  split; [apply N2Nat.id | apply in_seq; lia].
Qed.

(** The decoder reads the escape of one character back as that
    character. *)
Lemma scanstring_escape_char (c : codepoint) (r acc : pystr) :
  scanstring (escape_char c ++ r) acc = scanstring r (c :: acc).
Proof.
  destruct (N.ltb_spec c 32) as [Hlt|Hge].
  - apply lt_32_cases in Hlt. cbn in Hlt.
    repeat (destruct Hlt as [<-|Hlt]; [reflexivity|]). done.
  - destruct (N.eqb_spec c 92) as [->|H92]; [reflexivity|].
    destruct (N.eqb_spec c 34) as [->|H34]; [reflexivity|].
    assert (escape_char c = [c]) as ->.
    { unfold escape_char, escape_dct.
      rewrite (proj2 (N.eqb_neq c 92)), (proj2 (N.eqb_neq c 34)) by done.
      rewrite !(proj2 (N.eqb_neq c _)) by lia.
      by rewrite (proj2 (N.ltb_ge c 32)). }
    cbn [app scanstring].
    rewrite (proj2 (N.eqb_neq c 34)), (proj2 (N.eqb_neq c 92)) by done.
    by rewrite (proj2 (N.ltb_ge c 32)).
Qed.

Lemma scanstring_escaped (s r acc : pystr) :
  scanstring (flat_map escape_char s ++ 34%N :: r) acc = Some (rev acc ++ s, r).
Proof.
  revert acc. induction s as [|c s IH]; intros acc.
  - cbn. by rewrite app_nil_r.
  - cbn [flat_map]. rewrite <- app_assoc, scanstring_escape_char, IH.
    cbn [rev]. by rewrite <- app_assoc.
Qed.

(** A string literal of the encoder is read back as the string. *)
Lemma scanstring_encode_basestring (s r : pystr) :
  exists body, encode_basestring false s ++ r = 34%N :: body
               /\ scanstring body [] = Some (s, r).
Proof.
  exists (flat_map escape_char s ++ 34%N :: r). split.
  - unfold encode_basestring. cbn. by rewrite <- app_assoc.
  - apply scanstring_escaped.
Qed.

(** Characters from 128 on are not escaped. *)
Lemma escape_char_non_ascii (c : codepoint) :
  (128 <= c)%N -> escape_char c = [c].
Proof.
  intros H. unfold escape_char, escape_dct.
  rewrite !(proj2 (N.eqb_neq c _)) by lia.
  by rewrite (proj2 (N.ltb_ge c 32)) by lia.
Qed.

Lemma hex_digit_graphic (n : N) : (n < 16)%N -> ascii_graphic (hex_digit n) = true.
Proof.
  intros H. unfold ascii_graphic, hex_digit.
  destruct (N.ltb_spec n 10); apply andb_true_iff; split; apply N.leb_le; lia.
Qed.

(** An escape consists of printable ASCII characters. *)
Lemma escape_char_chars (c0 c : codepoint) :
  c ∈ escape_char c0 -> c = c0 \/ ascii_graphic c = true.
Proof.
  destruct (N.ltb_spec c0 32) as [Hlt|Hge].
  - apply lt_32_cases in Hlt. cbn in Hlt. intros Hin. right. revert Hin.
    repeat (destruct Hlt as [<-|Hlt];
            [vm_compute; intros Hin;
             repeat (apply elem_of_cons in Hin as [->|Hin]; [reflexivity|]);
             by apply elem_of_nil in Hin|]).
    done.
  - destruct (N.eqb_spec c0 92) as [->|H92].
    { vm_compute. intros Hin. right.
      repeat (apply elem_of_cons in Hin as [->|Hin]; [reflexivity|]).
      by apply elem_of_nil in Hin. }
    destruct (N.eqb_spec c0 34) as [->|H34].
    { vm_compute. intros Hin. right.
      repeat (apply elem_of_cons in Hin as [->|Hin]; [reflexivity|]).
      by apply elem_of_nil in Hin. }
    assert (escape_char c0 = [c0]) as ->.
    { unfold escape_char, escape_dct.
      rewrite (proj2 (N.eqb_neq c0 92)), (proj2 (N.eqb_neq c0 34)) by done.
      rewrite !(proj2 (N.eqb_neq c0 _)) by lia.
      by rewrite (proj2 (N.ltb_ge c0 32)). }
    intros ->%list_elem_of_singleton. by left.
Qed.

End JsonStrings.

(** ** scrap.py: the decoder reads the compact document back *)

Section JsonRoundTrip.
Import Scrap.

(** Induction over a value, with the property at hand for every element
    and every member. *)
Lemma json_forall_ind (P : json -> Prop) :
  (forall s, P (JStr s)) ->
  (forall l, Forall P l -> P (JList l)) ->
  (forall d, Forall (fun kv => P kv.2) d -> P (JDict d)) ->
  forall v, P v.
Proof.
  intros HS HL HD. fix IH 1. intros [s|l|d].
  - apply HS.
  - apply HL. induction l as [|v l IHl]; constructor; [apply IH | apply IHl].
  - apply HD. induction d as [|[k v] d IHd]; constructor; [apply IH | apply IHd].
Qed.

Lemma compact_JList (l : list json) :
  compact (JList l) = 91%N :: py_join (lit ",") (map compact l) ++ [93%N].
Proof. reflexivity. Qed.

Lemma py_join_cons2 (sep x y : pystr) (l : list pystr) :
  py_join sep (x :: y :: l) = x ++ sep ++ py_join sep (y :: l).
Proof. reflexivity. Qed.

Lemma join_members (kv : pystr * json) (d : dict json) :
  py_join (lit ",")
    ((encode_basestring false kv.1 ++ lit ":" ++ compact kv.2)
     :: map (fun kv => encode_basestring false kv.1 ++ lit ":" ++ compact kv.2) d)
  = 34%N :: object_tail (kv :: d).
Proof.
  revert kv. induction d as [|kv' d IH]; intros [k v].
  - cbn [map py_join object_tail fst snd]. unfold encode_basestring.
    cbn [app]. by rewrite <- !app_assoc.
  - cbn [map]. rewrite py_join_cons2, IH. destruct kv' as [k' v'].
    cbn [object_tail fst snd]. unfold encode_basestring. cbn [app].
    by rewrite <- !app_assoc.
Qed.

Lemma compact_JDict_cons (kv : pystr * json) (d : dict json) :
  compact (JDict (kv :: d)) = 123%N :: 34%N :: object_tail (kv :: d) ++ [125%N].
Proof.
  change (compact (JDict (kv :: d)))
    with ([123%N]
          ++ py_join (lit ",")
               ((encode_basestring false kv.1 ++ lit ":" ++ compact kv.2)
                :: map (fun kv => encode_basestring false kv.1 ++ lit ":"
                                  ++ compact kv.2) d)
          ++ [125%N]).
  by rewrite join_members.
Qed.

Lemma starts_value_compact (v : json) (x : pystr) : starts_value (compact v ++ x).
Proof.
  destruct v as [s|l|[|kv d]].
  - eexists 34%N, _. split; [reflexivity | auto].
  - eexists 91%N, _. split; [reflexivity | auto].
  - eexists 123%N, _. split; [reflexivity | auto].
  - eexists 123%N, _. split; [reflexivity | auto].
Qed.

Lemma starts_value_join (v : json) (l : list json) (x : pystr) :
  starts_value (py_join (lit ",") (map compact (v :: l)) ++ x).
Proof.
  destruct l as [|v' l]; cbn [map].
  - apply starts_value_compact.
  - rewrite py_join_cons2, <- app_assoc. apply starts_value_compact.
Qed.

Lemma skip_ws_starts_value (s : pystr) : starts_value s -> skip_ws s = s.
Proof. intros (c & r & -> & [->|[->| ->]]); reflexivity. Qed.

(** The three branches of [scan_once] and the two loops, one step each. *)
Lemma scan_once_string (fuel : nat) (r : pystr) :
  scan_once (S fuel) (34%N :: r)
  = '(str, rest) ← scanstring r []; Some (JStr str, rest).
Proof. reflexivity. Qed.

Lemma scan_once_empty_array (fuel : nat) (rest : pystr) :
  scan_once (S fuel) (91%N :: 93%N :: rest) = Some (JList [], rest).
Proof. reflexivity. Qed.

Lemma scan_once_array (fuel : nat) (r : pystr) :
  starts_value r ->
  scan_once (S fuel) (91%N :: r)
  = '(vs, rest) ← array_loop fuel r []; Some (JList vs, rest).
Proof. intros (c & r' & -> & [->|[->| ->]]); reflexivity. Qed.

Lemma scan_once_empty_object (fuel : nat) (rest : pystr) :
  scan_once (S fuel) (123%N :: 125%N :: rest) = Some (JDict [], rest).
Proof. reflexivity. Qed.

Lemma scan_once_object (fuel : nat) (r : pystr) :
  scan_once (S fuel) (123%N :: 34%N :: r)
  = '(ps, rest) ← object_loop fuel r []; Some (JDict (dict_of_pairs ps), rest).
Proof. reflexivity. Qed.

Lemma array_loop_last (fuel : nat) (s rest : pystr) (values : list json) v :
  scan_once fuel s = Some (v, 93%N :: rest) ->
  array_loop (S fuel) s values = Some (values ++ [v], rest).
Proof. intros H. cbn [array_loop]. rewrite H. reflexivity. Qed.

Lemma array_loop_next (fuel : nat) (s r : pystr) (values : list json) v :
  scan_once fuel s = Some (v, 44%N :: r) ->
  array_loop (S fuel) s values = array_loop fuel (skip_ws r) (values ++ [v]).
Proof. intros H. cbn [array_loop]. rewrite H. reflexivity. Qed.

Lemma object_loop_last (fuel : nat) (s s2 rest : pystr) pairs k v :
  scanstring s [] = Some (k, 58%N :: s2) ->
  scan_once fuel (skip_ws s2) = Some (v, 125%N :: rest) ->
  object_loop (S fuel) s pairs = Some (pairs ++ [(k, v)], rest).
Proof. intros H1 H2. cbn [object_loop]. rewrite H1. cbn. rewrite H2. reflexivity. Qed.

Lemma object_loop_next (fuel : nat) (s s2 r : pystr) pairs k v :
  scanstring s [] = Some (k, 58%N :: s2) ->
  scan_once fuel (skip_ws s2) = Some (v, 44%N :: 34%N :: r) ->
  object_loop (S fuel) s pairs = object_loop fuel r (pairs ++ [(k, v)]).
Proof. intros H1 H2. cbn [object_loop]. rewrite H1. cbn. rewrite H2. reflexivity. Qed.

Lemma array_loop_compact (l : list json) :
  l <> [] -> Forall reads_back l ->
  forall fuel rest acc,
    (length (py_join (lit ",") (map compact l)) < fuel)%nat ->
    array_loop fuel (py_join (lit ",") (map compact l) ++ 93%N :: rest) acc
    = Some (acc ++ l, rest).
Proof.
  intros Hne Hall. induction Hall as [|v l Hv Hl IH]; [done|]. clear Hne.
  intros fuel rest acc Hfuel. destruct fuel as [|fuel]; [lia|].
  destruct l as [|v' l].
  - cbn [map py_join] in *. apply array_loop_last. apply Hv. clear -Hfuel. lia.
  - cbn [map] in *. rewrite py_join_cons2 in *.
    rewrite !length_app in Hfuel. rewrite <- !app_assoc.
    change (length (lit ",")) with 1%nat in Hfuel.
    change (lit "," ++ ?x) with (44%N :: x).
    erewrite array_loop_next; [|apply Hv; clear -Hfuel; lia].
    rewrite skip_ws_starts_value by apply (starts_value_join v' l).
    rewrite IH; [|done|clear -Hfuel; lia]. by rewrite <- app_assoc.
Qed.

Lemma object_loop_compact (d : dict json) :
  d <> [] -> Forall (fun kv => reads_back kv.2) d ->
  forall fuel rest acc,
    (length (object_tail d) < fuel)%nat ->
    object_loop fuel (object_tail d ++ 125%N :: rest) acc = Some (acc ++ d, rest).
Proof.
  intros Hne Hall. induction Hall as [|[k v] d Hv Hd IH]; [done|]. clear Hne.
  intros fuel rest acc Hfuel. destruct fuel as [|fuel]; [lia|].
  cbn [snd] in Hv. destruct d as [|kv' d].
  - cbn [object_tail] in *. rewrite !length_app in Hfuel.
    rewrite <- !app_assoc. cbn [app].
    eapply object_loop_last; [apply scanstring_escaped|].
    rewrite skip_ws_starts_value by apply starts_value_compact.
    apply Hv. clear -Hfuel. lia.
  - change (object_tail ((k, v) :: kv' :: d))
      with (flat_map escape_char k ++ [34%N] ++ lit ":" ++ compact v
            ++ lit "," ++ [34%N] ++ object_tail (kv' :: d)) in *.
    rewrite !length_app in Hfuel. cbn [length] in Hfuel.
    rewrite <- !app_assoc. cbn [app].
    change (lit "," ++ ?x) with (44%N :: x).
    erewrite object_loop_next; [|apply scanstring_escaped|].
    + rewrite IH; [|done|clear -Hfuel; lia]. by rewrite <- app_assoc.
    + rewrite skip_ws_starts_value by apply starts_value_compact.
      cbn [app]. apply Hv. clear -Hfuel. lia.
Qed.

Lemma fold_dict_set_fresh {V} (ps acc : dict V) :
  dict_wf (acc ++ ps) ->
  fold_left (fun d kv => dict_set d kv.1 kv.2) ps acc = acc ++ ps.
Proof.
  unfold dict_wf, keys. revert acc. induction ps as [|[k v] ps IH]; intros acc Hwf.
  - cbn. by rewrite app_nil_r.
  - cbn [fold_left fst snd]. rewrite dict_set_fresh.
    + rewrite IH; rewrite <- app_assoc; done.
    + rewrite fmap_app in Hwf. apply NoDup_app in Hwf as (_ & Hdisj & _).
      intros Hin. apply (Hdisj k Hin). left.
Qed.

Lemma dict_of_pairs_wf {V} (d : dict V) : dict_wf d -> dict_of_pairs d = d.
Proof. intros H. unfold dict_of_pairs. by rewrite fold_dict_set_fresh. Qed.

(** The decoder reads every well-formed value back from its compact
    document. *)
Lemma reads_back_compact (v : json) : json_wf v -> reads_back v.
Proof.
  induction v as [s|l IH|d IH] using json_forall_ind; intros Hwf fuel rest Hfuel.
  - destruct fuel as [|fuel]; [cbn in Hfuel; lia|].
    destruct (scanstring_encode_basestring s rest) as (body & Hb & Hscan).
    change (compact (JStr s)) with (encode_basestring false s).
    rewrite Hb, scan_once_string, Hscan. reflexivity.
  - inversion Hwf as [|l' Hl|]; subst.
    rewrite compact_JList in *. cbn [length] in Hfuel.
    destruct fuel as [|fuel]; [lia|].
    destruct l as [|v l].
    + reflexivity.
    + rewrite length_app in Hfuel. cbn [length] in Hfuel.
      cbn [app]. rewrite <- app_assoc. cbn [app].
      rewrite scan_once_array by apply starts_value_join.
      rewrite array_loop_compact; [done|done| |lia].
      apply Forall_forall. intros x Hx.
      rewrite Forall_forall in IH, Hl. auto.
  - inversion Hwf as [| |d' Hd Hall]; subst.
    destruct d as [|kv d].
    + destruct fuel as [|fuel]; [vm_compute in Hfuel; lia | reflexivity].
    + rewrite compact_JDict_cons in *. cbn [length] in Hfuel.
      rewrite length_app in Hfuel. cbn [length] in Hfuel.
      destruct fuel as [|fuel]; [lia|].
      cbn [app]. rewrite <- app_assoc. cbn [app].
      rewrite scan_once_object.
      rewrite object_loop_compact; [|done| |lia].
      * cbn -[dict_of_pairs]. by rewrite dict_of_pairs_wf.
      * apply Forall_forall. intros x Hx.
        rewrite Forall_forall in IH, Hall. auto.
Qed.

Lemma loads_compact (v : json) : json_wf v -> loads (compact v) = Some v.
Proof.
  intros Hwf. unfold loads.
  rewrite <- (app_nil_r (compact v)) at 2.
  rewrite skip_ws_starts_value by apply starts_value_compact.
  rewrite app_nil_r.
  rewrite <- (app_nil_r (compact v)) at 2.
  rewrite (reads_back_compact v Hwf) by done. reflexivity.
Qed.

End JsonRoundTrip.

(** ** scrap.py: the objects of the inventory *)

Section Inventory.
Import Scrap Scenarios.
Implicit Types (it : ControlItem) (items : list ControlItem).

Lemma inventory_to_json_compact items :
  inventory_to_json items = compact (payload items).
Proof. reflexivity. Qed.

(** The compact dictionary, member by member. *)
Lemma to_compact_dict_members it :
  to_compact_dict it
  = [(lit "tag", JStr (tag it))]
    ++ match text it with
       | Some ((_ :: _) as t) => [(lit "text", JStr t)]
       | _ => []
       end
    ++ match attrs it with
       | Some ((_ :: _) as a) =>
           [(lit "attrs", JDict (map (fun kv => (kv.1, JStr kv.2)) a))]
       | _ => []
       end.
Proof. destruct it as [t [[|c x]|] [[|kv a]|]]; reflexivity. Qed.

Lemma compact_dict_tag it :
  dict_get (to_compact_dict it) (lit "tag") = Some (JStr (tag it)).
Proof. destruct it as [t [[|c x]|] [[|kv a]|]]; reflexivity. Qed.

Lemma compact_dict_text it :
  dict_get (to_compact_dict it) (lit "text")
  = match text it with
    | Some ((_ :: _) as t) => Some (JStr t)
    | _ => None
    end.
Proof. destruct it as [t [[|c x]|] [[|kv a]|]]; reflexivity. Qed.

Lemma compact_dict_attrs it :
  dict_get (to_compact_dict it) (lit "attrs")
  = match attrs it with
    | Some ((_ :: _) as a) => Some (JDict (map (fun kv => (kv.1, JStr kv.2)) a))
    | _ => None
    end.
Proof. destruct it as [t [[|c x]|] [[|kv a]|]]; reflexivity. Qed.

Lemma compact_dict_keys it :
  keys (to_compact_dict it) ⊆ [lit "tag"; lit "text"; lit "attrs"].
Proof.
  rewrite to_compact_dict_members.
  destruct it as [t [[|c x]|] [[|kv a]|]]; cbn [text attrs app keys map fst];
    intros k Hk; repeat (apply elem_of_cons in Hk as [->|Hk]; [set_solver|]);
    by apply elem_of_nil in Hk.
Qed.

Lemma compact_dict_wf it : dict_wf (to_compact_dict it).
Proof.
  rewrite to_compact_dict_members. unfold dict_wf.
  destruct it as [t [[|c x]|] [[|kv a]|]]; cbn [text attrs app keys map fst];
    apply (bool_decide_unpack _); by vm_compute.
Qed.

Lemma attrs_object_wf (a : dict pystr) :
  dict_wf a -> json_wf (JDict (map (fun kv => (kv.1, JStr kv.2)) a)).
Proof.
  intros Hwf. constructor.
  - unfold dict_wf, keys in *. by rewrite map_map.
  - apply Forall_forall. intros kv [kv' [-> _]]%list_elem_of_fmap. constructor.
Qed.

Lemma payload_wf items :
  Forall (fun it => forall a, attrs it = Some a -> dict_wf a) items ->
  json_wf (payload items).
Proof.
  intros Hall. constructor. apply Forall_forall.
  intros v [it [-> Hit]]%list_elem_of_fmap.
  rewrite Forall_forall in Hall. specialize (Hall it Hit).
  constructor; [apply compact_dict_wf|].
  rewrite to_compact_dict_members.
  apply Forall_forall. intros [k v] Hin.
  destruct it as [t [[|c x]|] [[|kv a]|]]; cbn [text attrs app snd] in *;
    repeat (apply elem_of_cons in Hin as [[= -> ->]|Hin];
            [first [apply wf_JStr | by apply (attrs_object_wf (kv :: a)), Hall]|]);
    by apply elem_of_nil in Hin.
Qed.

Lemma attrs_of_json (a : dict pystr) :
  mapM (fun kv : pystr * json => pair kv.1 <$> str_of_json kv.2)
       (map (fun kv => (kv.1, JStr kv.2)) a)
  = Some a.
Proof.
  apply (mapM_fmap_Forall_Some _ (fun kv : pystr * pystr => (kv.1, JStr kv.2))).
  apply Forall_forall. by intros [k v] _.
Qed.

(** An item of the extractor is read back from its compact dictionary. *)
Lemma item_of_json_compact it :
  item_wf it -> item_of_json (JDict (to_compact_dict it)) = Some it.
Proof.
  intros (Ht & Ha & _). unfold item_of_json.
  rewrite compact_dict_tag, compact_dict_text, compact_dict_attrs.
  destruct it as [t [[|c x]|] [[|kv a]|]]; cbn [text attrs] in *; try done.
  - cbn [mbind option_bind str_of_json fmap option_fmap option_map].
    by rewrite attrs_of_json.
  - cbn [mbind option_bind str_of_json fmap option_fmap option_map].
    by rewrite attrs_of_json.
Qed.

Lemma items_of_json_payload items :
  Forall item_wf items -> items_of_json (payload items) = Some items.
Proof.
  intros Hall. unfold items_of_json, payload.
  apply (mapM_fmap_Forall_Some _ (fun it => JDict (to_compact_dict it))).
  eapply Forall_impl; [exact Hall|]. apply item_of_json_compact.
Qed.

(** The items of the extractor are well formed. *)
Lemma control_item_wf (el : element) (m : Z) it :
  control_item el m = Ok (Some it) -> item_wf it.
Proof.
  intros (_ & -> & _)%control_item_Some. unfold item_wf. cbn [text attrs].
  split_and!.
  - by destruct (control_text el m).
  - by destruct (_filter_attrs el KEEP_ATTRS).
  - intros a [-> _]%or_none_Some. apply filter_attrs_wf.
Qed.

Lemma extract_items_wf html_parser html m items :
  extract_controls_inventory html_parser html m = Ok items ->
  Forall item_wf items.
Proof.
  rewrite extract_controls_inventory_unfold.
  intros (rs & Hrs & ->)%extract_loop_Ok. cbn [app].
  induction Hrs as [|el r els rs Hel _ IH]; [constructor|].
  destruct r as [it|]; cbn; [|done].
  constructor; [by eapply control_item_wf | done].
Qed.

(** C8: an output sequence of the extractor, serialized and parsed
    again, gives back the same items in the same order. *)
Theorem inventory_json_round_trip html_parser html m items :
  extract_controls_inventory html_parser html m = Ok items ->
  loads (inventory_to_json items) ≫= items_of_json = Some items.
Proof.
  intros Hex. apply extract_items_wf in Hex.
  rewrite inventory_to_json_compact, loads_compact.
  - cbn [mbind option_bind]. by apply items_of_json_payload.
  - apply payload_wf. eapply Forall_impl; [exact Hex|].
    by intros it (_ & _ & ?).
Qed.

Lemma inventory_json_round_trip_witness :
  loads (inventory_to_json [link_item]) ≫= items_of_json = Some [link_item].
Proof.
  apply (inventory_json_round_trip (fun _ => hidden_button_and_link_doc) [] 80).
  reflexivity.
Defined.

(** *** The characters of the document *)

Lemma elem_of_py_join (sep : pystr) (l : list pystr) (c : N) :
  c ∈ py_join sep l -> c ∈ sep \/ exists x, x ∈ l /\ c ∈ x.
Proof.
  induction l as [|x [|y l] IH]; cbn [py_join].
  - by intros ?%elem_of_nil.
  - intros H. right. exists x. split; [left | done].
  - rewrite !elem_of_app. intros [H|[H|H]].
    + right. exists x. split; [left | done].
    + by left.
    + destruct (IH H) as [?|(z & Hz & Hc)]; [by left|].
      right. exists z. split; [by right | done].
Qed.

Lemma elem_of_py_join_2 (sep : pystr) (l : list pystr) (x : pystr) (c : N) :
  x ∈ l -> c ∈ x -> c ∈ py_join sep l.
Proof.
  induction l as [|y [|z l] IH]; cbn [py_join].
  - by intros ?%elem_of_nil.
  - by intros ->%list_elem_of_singleton.
  - intros [->|Hx]%elem_of_cons Hc; rewrite !elem_of_app; [by left|].
    right. right. by apply IH.
Qed.

Lemma encode_chars (s : pystr) (c : N) :
  c ∈ encode_basestring false s -> ascii_graphic c = true \/ c ∈ s.
Proof.
  unfold encode_basestring. rewrite !elem_of_app, !list_elem_of_singleton.
  intros [->|[H| ->]]; [by left| |by left].
  apply elem_of_flat_map in H as (c0 & Hc0 & H).
  apply escape_char_chars in H as [->|H]; [by right | by left].
Qed.

Lemma encode_chars_2 (s : pystr) (c : N) :
  c ∈ s -> escape_char c = [c] -> c ∈ encode_basestring false s.
Proof.
  intros Hc Hesc. unfold encode_basestring.
  rewrite !elem_of_app. right. left.
  apply elem_of_flat_map. exists c. split; [done|]. rewrite Hesc. left.
Qed.

Lemma compact_JDict (d : dict json) :
  compact (JDict d)
  = 123%N :: py_join (lit ",")
               (map (fun kv => encode_basestring false kv.1 ++ lit ":"
                               ++ compact kv.2) d)
    ++ [125%N].
Proof. reflexivity. Qed.

(** Outside the characters of its strings the compact document consists
    of printable ASCII characters other than the space. *)
Lemma compact_chars (v : json) (c : N) :
  c ∈ compact v ->
  ascii_graphic c = true \/ exists s, s ∈ json_strings v /\ c ∈ s.
Proof.
  revert c. induction v as [s|l IH|d IH] using json_forall_ind; intros c.
  - intros [?|?]%encode_chars; [by left|].
    right. exists s. split; [left | done].
  - rewrite compact_JList, elem_of_cons, elem_of_app, list_elem_of_singleton.
    intros [->|[H| ->]]; [by left| |by left].
    apply elem_of_py_join in H as [H|(x & Hx & Hc)].
    + left. by apply list_elem_of_singleton in H as ->.
    + apply list_elem_of_fmap in Hx as (v & -> & Hv).
      rewrite Forall_forall in IH.
      destruct (IH v Hv c Hc) as [?|(s & Hs & Hcs)]; [by left|].
      right. exists s. split; [|done]. cbn [json_strings].
      apply elem_of_flat_map. by exists v.
  - rewrite compact_JDict, elem_of_cons, elem_of_app, list_elem_of_singleton.
    intros [->|[H| ->]]; [by left| |by left].
    apply elem_of_py_join in H as [H|(x & Hx & Hc)].
    + left. by apply list_elem_of_singleton in H as ->.
    + apply list_elem_of_fmap in Hx as ([k v] & -> & Hkv). cbn [fst snd] in Hc.
      rewrite !elem_of_app in Hc. destruct Hc as [Hc|[Hc|Hc]].
      * apply encode_chars in Hc as [?|?]; [by left|].
        right. exists k. split; [|done]. cbn [json_strings].
        apply elem_of_flat_map. exists (k, v). split; [done | left].
      * left. by apply list_elem_of_singleton in Hc as ->.
      * rewrite Forall_forall in IH.
        destruct (IH (k, v) Hkv c Hc) as [?|(s & Hs & Hcs)]; [by left|].
        right. exists s. split; [|done]. cbn [json_strings].
        apply elem_of_flat_map. exists (k, v). split; [done | by right].
Qed.

(** A character that needs no escape stands in the document as it is. *)
Lemma compact_chars_2 (v : json) (s : pystr) (c : N) :
  s ∈ json_strings v -> c ∈ s -> escape_char c = [c] -> c ∈ compact v.
Proof.
  intros Hs Hc Hesc. revert s Hs Hc.
  induction v as [s0|l IH|d IH] using json_forall_ind; intros s Hs Hc.
  - apply list_elem_of_singleton in Hs as ->. by apply encode_chars_2.
  - cbn [json_strings] in Hs. apply elem_of_flat_map in Hs as (v & Hv & Hs).
    rewrite compact_JList, elem_of_cons, elem_of_app. right. left.
    apply (elem_of_py_join_2 _ _ (compact v)).
    + apply list_elem_of_fmap. by exists v.
    + rewrite Forall_forall in IH. by eapply IH.
  - cbn [json_strings] in Hs. apply elem_of_flat_map in Hs as ([k v] & Hkv & Hs).
    rewrite compact_JDict, elem_of_cons, elem_of_app. right. left.
    apply (elem_of_py_join_2 _ _ (encode_basestring false k ++ lit ":" ++ compact v)).
    + apply list_elem_of_fmap. by exists (k, v).
    + rewrite !elem_of_app. cbn [fst snd] in Hs.
      apply elem_of_cons in Hs as [->|Hs].
      * left. by apply encode_chars_2.
      * right. right. rewrite Forall_forall in IH. by eapply (IH (k, v)).
Qed.

Lemma isspace_not_graphic (c : N) : py_isspace c = true -> ascii_graphic c = false.
Proof.
  unfold py_isspace, ascii_graphic.
  rewrite !orb_true_iff, !andb_true_iff, !N.leb_le, !N.eqb_eq.
  intros H. apply andb_false_iff. rewrite !N.leb_gt. lia.
Qed.

Lemma non_ascii_not_graphic (c : N) : (128 <= c)%N -> ascii_graphic c = false.
Proof.
  intros H. unfold ascii_graphic. apply andb_false_iff. rewrite !N.leb_gt. lia.
Qed.

Lemma key_names_graphic (s : pystr) (c : N) :
  s ∈ [lit "tag"; lit "text"; lit "attrs"] -> c ∈ s -> ascii_graphic c = true.
Proof.
  intros Hs Hc.
  repeat (apply elem_of_cons in Hs as [->|Hs];
          [vm_compute in Hc;
           repeat (apply elem_of_cons in Hc as [->|Hc]; [reflexivity|]);
           by apply elem_of_nil in Hc|]).
  by apply elem_of_nil in Hs.
Qed.

Lemma attrs_object_strings (a : dict pystr) :
  flat_map (fun kv : pystr * json => kv.1 :: json_strings kv.2)
           (map (fun kv => (kv.1, JStr kv.2)) a)
  = flat_map (fun kv => [kv.1; kv.2]) a.
Proof. induction a as [|[k v] a IH]; [done|]. cbn. by rewrite IH. Qed.

Lemma compact_dict_strings it :
  json_strings (JDict (to_compact_dict it))
  = [lit "tag"; tag it]
    ++ match text it with
       | Some ((_ :: _) as t) => [lit "text"; t]
       | _ => []
       end
    ++ match attrs it with
       | Some ((_ :: _) as a) => lit "attrs" :: flat_map (fun kv => [kv.1; kv.2]) a
       | _ => []
       end.
Proof.
  rewrite to_compact_dict_members.
  destruct it as [t [[|c x]|] [[|kv a]|]]; cbn [text attrs tag]; try reflexivity.
  - cbn [app json_strings flat_map fst snd]. rewrite attrs_object_strings.
    by rewrite app_nil_r.
  - cbn [app json_strings flat_map fst snd]. rewrite attrs_object_strings.
    by rewrite app_nil_r.
  - cbn [app json_strings flat_map fst snd]. rewrite attrs_object_strings.
    by rewrite app_nil_r.
Qed.

Lemma elem_of_items_chars items (c : N) :
  c ∈ items_chars items <->
  exists it s, it ∈ items /\ s ∈ item_strings it /\ c ∈ s.
Proof.
  unfold items_chars. split.
  - intros Hc. apply list_elem_of_In, in_concat in Hc as (s & Hs & Hc).
    apply list_elem_of_In, elem_of_flat_map in Hs as (it & Hit & Hs).
    exists it, s. split_and!; [done | done | by apply list_elem_of_In].
  - intros (it & s & Hit & Hs & Hc). apply list_elem_of_In, in_concat.
    exists s. split; [|by apply list_elem_of_In].
    apply list_elem_of_In, elem_of_flat_map. by exists it.
Qed.

Lemma compact_dict_strings_item it (s : pystr) :
  s ∈ json_strings (JDict (to_compact_dict it)) ->
  s ∈ [lit "tag"; lit "text"; lit "attrs"] \/ s ∈ item_strings it.
Proof.
  rewrite compact_dict_strings. unfold item_strings.
  destruct it as [t [[|c x]|] [[|kv a]|]]; cbn [text attrs tag]; set_solver.
Qed.

Lemma payload_strings items (s : pystr) :
  s ∈ json_strings (payload items) ->
  s ∈ [lit "tag"; lit "text"; lit "attrs"]
  \/ exists it, it ∈ items /\ s ∈ item_strings it.
Proof.
  unfold payload. cbn [json_strings]. rewrite elem_of_flat_map.
  intros (v & [it [-> Hit]]%list_elem_of_fmap & Hs).
  apply compact_dict_strings_item in Hs as [?|?]; [by left|].
  right. by exists it.
Qed.

Lemma payload_strings_2 items it (s : pystr) :
  it ∈ items -> s ∈ item_strings it -> s <> [] ->
  s ∈ json_strings (payload items).
Proof.
  intros Hit Hs Hne. unfold payload. cbn [json_strings].
  apply elem_of_flat_map. exists (JDict (to_compact_dict it)).
  split; [apply list_elem_of_fmap; by exists it|].
  rewrite compact_dict_strings. unfold item_strings in Hs.
  destruct it as [t [[|c x]|] [[|kv a]|]]; cbn [text attrs tag app] in *;
    set_solver.
Qed.

Lemma encode_basestring_non_ascii (s : pystr) :
  Forall (fun c => (128 <= c)%N) s ->
  encode_basestring false s = 34%N :: s ++ [34%N].
Proof.
  intros H. unfold encode_basestring. cbn [app]. do 2 f_equal.
  induction H as [|c s Hc _ IH]; [done|].
  cbn [flat_map]. by rewrite escape_char_non_ascii, IH.
Qed.

Lemma inventory_chars items (c : N) :
  c ∈ inventory_to_json items ->
  ascii_graphic c = true \/ c ∈ items_chars items.
Proof.
  rewrite inventory_to_json_compact.
  intros [?|(s & Hs & Hc)]%compact_chars; [by left|].
  apply payload_strings in Hs as [Hs|(it & Hit & Hs)].
  - left. by eapply key_names_graphic.
  - right. apply elem_of_items_chars. by exists it, s.
Qed.

(** C7: the serializer writes a JSON array with one object per item, in
    the order of the items.  Each object has the key [tag]; it has the
    key [text] exactly when the text of the item is non-empty, and the key
    [attrs], holding an object, exactly when the attribute mapping is
    non-empty; it has no other key.  The document is compact: every
    white-space character in it is a character of a string of the items.
    Characters outside ASCII are written as they are: such a character
    is in the document exactly when it is in a string of the items. *)
Theorem inventory_to_json_document items :
  Forall (fun it => forall a, attrs it = Some a -> dict_wf a) items ->
  loads (inventory_to_json items)
  = Some (JList (map (fun it => JDict (to_compact_dict it)) items))
  /\ (forall it,
        dict_get (to_compact_dict it) (lit "tag") = Some (JStr (tag it))
        /\ (forall j, dict_get (to_compact_dict it) (lit "text") = Some j <->
                      exists t, text it = Some t /\ t <> [] /\ j = JStr t)
        /\ (forall j, dict_get (to_compact_dict it) (lit "attrs") = Some j <->
                      exists a, attrs it = Some a /\ a <> []
                                /\ j = JDict (map (fun kv => (kv.1, JStr kv.2)) a))
        /\ keys (to_compact_dict it) ⊆ [lit "tag"; lit "text"; lit "attrs"])
  /\ (forall c, c ∈ inventory_to_json items -> py_isspace c = true ->
                c ∈ items_chars items)
  /\ (forall c, (128 <= c)%N ->
                (c ∈ inventory_to_json items <-> c ∈ items_chars items))
  /\ (forall s, Forall (fun c => (128 <= c)%N) s ->
                encode_basestring false s = 34%N :: s ++ [34%N]).
Proof.
  intros Hwf. split_and!; [| | | |apply encode_basestring_non_ascii].
  - rewrite inventory_to_json_compact. by apply loads_compact, payload_wf.
  - intros it. split_and!.
    + apply compact_dict_tag.
    + intros j. rewrite compact_dict_text.
      destruct (text it) as [[|c x]|]; split; try done.
      * by intros (t & [= <-] & ? & _).
      * intros [= <-]. by eexists.
      * by intros (t & [= <-] & _ & ->).
      * by intros (t & ? & _).
    + intros j. rewrite compact_dict_attrs.
      destruct (attrs it) as [[|kv a]|]; split; try done.
      * by intros (t & [= <-] & ? & _).
      * intros [= <-]. by eexists.
      * by intros (t & [= <-] & _ & ->).
      * by intros (t & ? & _).
    + apply compact_dict_keys.
  - intros c Hc Hsp. apply inventory_chars in Hc as [Hg|?]; [|done].
    apply isspace_not_graphic in Hsp. congruence.
  - intros c Hc. split.
    + intros [Hg|?]%inventory_chars; [|done].
      apply non_ascii_not_graphic in Hc. congruence.
    + intros (it & s & Hit & Hs & Hcs)%elem_of_items_chars.
      rewrite inventory_to_json_compact.
      apply (compact_chars_2 _ s); [|done|by apply escape_char_non_ascii].
      eapply payload_strings_2; [done..|].
      intros ->. by apply elem_of_nil in Hcs.
Qed.

Lemma inventory_to_json_document_witness :
  loads (inventory_to_json [link_item; cafe_item])
  = Some (JList (map (fun it => JDict (to_compact_dict it))
                     [link_item; cafe_item])).
Proof.
  apply (inventory_to_json_document [link_item; cafe_item]).
  apply Forall_forall. intros it Hit a Ha.
  repeat (apply elem_of_cons in Hit as [->|Hit];
          [vm_compute in Ha;
           first [discriminate Ha
                 | injection Ha as <-; unfold dict_wf;
                   apply (bool_decide_unpack _); vm_compute; exact I]|]).
  by apply elem_of_nil in Hit.
Defined.

End Inventory.

(** ** scrap.py: the extractor returns *)

Section Totality.
Import Scrap.

(** The parser gives [aria-hidden] and [type] string values, never
    lists; on such elements no body of the loop raises, and the extractor
    returns a sequence. *)
Lemma extract_controls_total (html_parser : pystr -> list node) html m :
  Forall (fun el =>
            (forall l, el_get el (lit "aria-hidden") <> Some (AttrList l))
            /\ (forall l, el_get el (lit "type") <> Some (AttrList l)))
         (selected (html_parser html)) ->
  exists items, extract_controls_inventory html_parser html m = Ok items.
Proof.
  intros H. rewrite extract_controls_inventory_unfold.
  apply extract_loop_total. eapply Forall_impl; [exact H|].
  intros el [Ha Ht]. by apply is_hidden_total.
Qed.

End Totality.

(** * Properties of the helpers *)

(** ** scrap.py: splitting, joining and stripping *)

Section Words.
Import Scrap Shape.
Implicit Types (s t cur w : list N) (ws : list (list N)).

Lemma split_from_word w cur s :
  Forall (fun c => py_isspace c = false) w ->
  split_from cur (w ++ s) = split_from (rev w ++ cur) s.
Proof.
  intros H. revert cur. induction H as [|c w Hc _ IH]; intros cur; [done|].
  cbn [app split_from rev]. rewrite Hc, IH. by rewrite <- app_assoc.
Qed.

Lemma split_from_app_space cur a c b :
  py_isspace c = true ->
  split_from cur (a ++ c :: b) = split_from cur a ++ split_from [] b.
Proof.
  intros Hc. revert cur. induction a as [|x a IH]; intros cur; cbn [app split_from].
  - rewrite Hc. by destruct cur.
  - destruct (py_isspace x); [|apply IH].
    destruct cur; rewrite IH; done.
Qed.

Lemma split_from_spaces s :
  Forall (fun c => py_isspace c = true) s -> split_from [] s = [].
Proof. induction 1 as [|c s Hc _ IH]; [done|]. cbn. by rewrite Hc. Qed.

Lemma split_from_words cur s :
  Forall (fun c => py_isspace c = false) cur ->
  Forall is_word (split_from cur s).
Proof.
  revert cur. induction s as [|c s IH]; intros cur Hcur; cbn [split_from].
  - destruct cur as [|x cur]; [constructor|].
    constructor; [|constructor]. split.
    + cbn. by destruct (rev cur).
    + by apply Forall_rev.
  - destruct (py_isspace c) eqn:Hc.
    + destruct cur as [|x cur]; [by apply IH|].
      constructor; [|by apply IH]. split.
      * cbn. by destruct (rev cur).
      * by apply Forall_rev.
    + apply IH. by constructor.
Qed.

Lemma py_split_words s : Forall is_word (py_split s).
Proof. by apply split_from_words. Qed.

(** The words hold the characters of the text that are not white space. *)
Lemma concat_split_from cur s :
  concat (split_from cur s)
  = rev cur ++ filter (fun c => py_isspace c = false) s.
Proof.
  revert cur. induction s as [|c s IH]; intros cur; cbn [split_from].
  - destruct cur; cbn; by rewrite ?app_nil_r.
  - rewrite filter_cons. destruct (py_isspace c) eqn:Hc.
    + rewrite decide_False by done.
      destruct cur; cbn [concat]; by rewrite IH.
    + rewrite decide_True by done. rewrite IH. cbn [rev].
      by rewrite <- app_assoc.
Qed.

Lemma py_join_cons_words w w' ws :
  py_join (lit " ") (w :: w' :: ws) = w ++ 32%N :: py_join (lit " ") (w' :: ws).
Proof. reflexivity. Qed.

(** Joining words with single spaces and splitting again gives the
    words back. *)
Lemma py_split_join ws :
  Forall is_word ws -> py_split (py_join (lit " ") ws) = ws.
Proof.
  unfold py_split. induction 1 as [|w ws [Hne Hw] Hws IH]; [done|].
  destruct ws as [|w' ws].
  - cbn [py_join]. rewrite <- (app_nil_r w) at 1.
    rewrite split_from_word by done. cbn [split_from]. rewrite app_nil_r.
    destruct (rev w) eqn:E; [|by rewrite <- E, rev_involutive].
    apply (f_equal (@rev N)) in E. rewrite rev_involutive in E. done.
  - rewrite py_join_cons_words, split_from_word by done.
    cbn [split_from]. change (py_isspace 32) with true. cbn iota.
    rewrite app_nil_r, IH.
    destruct (rev w) eqn:E; [|by rewrite <- E, rev_involutive].
    apply (f_equal (@rev N)) in E. rewrite rev_involutive in E. done.
Qed.

Lemma py_join_words_head w ws :
  is_word w -> exists c r, py_join (lit " ") (w :: ws) = c :: r
                           /\ py_isspace c = false.
Proof.
  intros [Hne Hw]. destruct w as [|c w]; [done|].
  apply Forall_cons in Hw as [Hc _].
  destruct ws; [by exists c, w|].
  rewrite py_join_cons_words. by eexists c, _.
Qed.

Lemma py_join_words_last ws :
  Forall is_word ws -> ws <> [] ->
  exists r c, py_join (lit " ") ws = r ++ [c] /\ py_isspace c = false.
Proof.
  induction 1 as [|w ws [Hne Hw] Hws IH]; [done|]. intros _.
  destruct ws as [|w' ws].
  - cbn [py_join]. destruct (rev w) as [|c r] eqn:E.
    + apply (f_equal (@rev N)) in E. rewrite rev_involutive in E. done.
    + apply (f_equal (@rev N)) in E. rewrite rev_involutive in E. cbn in E.
      subst w. exists (rev r), c. split; [done|].
      rewrite Forall_app, Forall_singleton in Hw. tauto.
  - destruct IH as (r & c & Hr & Hc); [done|].
    rewrite py_join_cons_words, Hr. exists (w ++ 32%N :: r), c.
    split; [|done]. by rewrite <- app_assoc.
Qed.

Lemma lstrip_nonspace c s : py_isspace c = false -> lstrip (c :: s) = c :: s.
Proof. intros H. cbn. by rewrite H. Qed.

(** A text that begins and ends with a character that is not white space
    is left alone by [strip]. *)
Lemma py_strip_join ws :
  Forall is_word ws -> py_strip (py_join (lit " ") ws) = py_join (lit " ") ws.
Proof.
  intros Hws. destruct ws as [|w ws]; [done|].
  destruct (py_join_words_head w ws) as (c & r & Hj & Hc);
    [by apply Forall_cons in Hws as [? _]|].
  destruct (py_join_words_last (w :: ws)) as (r' & c' & Hj' & Hc'); [done..|].
  unfold py_strip, rstrip. rewrite Hj, lstrip_nonspace by done.
  rewrite <- Hj, Hj', rev_app_distr. cbn [rev app].
  rewrite lstrip_nonspace by done. cbn [rev]. by rewrite rev_involutive.
Qed.

Lemma normalize_text_join t :
  _normalize_text t = py_join (lit " ") (py_split t).
Proof. unfold _normalize_text. apply py_strip_join, py_split_words. Qed.

End Words.

(** ** scrap.py: [_normalize_text] *)

Section NormalizeText.
Import Scrap Shape.
Implicit Types (s t cur w : list N) (ws : list (list N)).

Lemma filter_nonspace_word w :
  Forall (fun c => py_isspace c = false) w ->
  filter (fun c => py_isspace c = false) w = w.
Proof.
  induction 1 as [|c w Hc _ IH]; [done|].
  by rewrite filter_cons, decide_True, IH.
Qed.

Lemma filter_nonspace_join ws :
  Forall is_word ws ->
  filter (fun c => py_isspace c = false) (py_join (lit " ") ws) = concat ws.
Proof.
  induction 1 as [|w ws [_ Hw] Hws IH]; [done|].
  destruct ws as [|w' ws].
  - cbn [py_join concat]. by rewrite app_nil_r, filter_nonspace_word.
  - rewrite py_join_cons_words, filter_app, filter_cons, decide_False by done.
    rewrite IH, filter_nonspace_word by done. done.
Qed.

Lemma length_join_split_from cur s :
  (length (py_join (lit " ") (split_from cur s)) <= length cur + length s)%nat.
Proof.
  revert cur. induction s as [|c s IH]; intros cur; cbn [split_from].
  - destruct cur; cbn [py_join length]; [lia|]. rewrite length_rev. cbn. lia.
  - destruct (py_isspace c).
    + specialize (IH []). cbn [length] in *.
      destruct cur as [|x cur]; [lia|].
      destruct (split_from [] s) as [|w' ws] eqn:E.
      * cbn [py_join]. rewrite length_rev. cbn. lia.
      * rewrite py_join_cons_words, length_app, length_rev. cbn [length] in *. lia.
    + specialize (IH (c :: cur)). cbn [length] in *. lia.
Qed.

Lemma single_spaced_cons a b r :
  single_spaced (a :: b :: r)
  = negb (py_isspace a && py_isspace b) && single_spaced (b :: r).
Proof. reflexivity. Qed.

Lemma single_spaced_word w r :
  Forall (fun c => py_isspace c = false) w ->
  single_spaced (w ++ r) = single_spaced r.
Proof.
  induction 1 as [|c w Hc _ IH]; [done|].
  cbn [app]. destruct (w ++ r) as [|b x] eqn:E.
  - apply app_eq_nil in E as [_ ->]. done.
  - rewrite single_spaced_cons, Hc. cbn [andb negb]. by rewrite <- IH.
Qed.

Lemma single_spaced_join ws :
  Forall is_word ws -> single_spaced (py_join (lit " ") ws) = true.
Proof.
  induction 1 as [|w ws [Hne Hw] Hws IH]; [done|].
  destruct ws as [|w' ws].
  - cbn [py_join]. rewrite <- (app_nil_r w). by rewrite single_spaced_word.
  - rewrite py_join_cons_words, single_spaced_word by done.
    destruct (py_join_words_head w' ws) as (c & r & Hj & Hc);
      [by apply Forall_cons in Hws as [? _]|].
    rewrite Hj in *. rewrite single_spaced_cons, Hc, IH. by rewrite andb_false_r.
Qed.

(** X1: normalizing a normalized text changes nothing. *)
Theorem normalize_text_idempotent t :
  _normalize_text (_normalize_text t) = _normalize_text t.
Proof.
  rewrite !normalize_text_join.
  by rewrite py_split_join by apply py_split_words.
Qed.

(** X2: in a normalized text the only white-space character is the
    space, no two spaces stand side by side, and the text neither begins
    nor ends with one. *)
Theorem normalize_text_single_spaces t :
  (forall c, c ∈ _normalize_text t -> py_isspace c = true -> c = 32%N)
  /\ single_spaced (_normalize_text t) = true
  /\ (forall c, head (_normalize_text t) = Some c -> py_isspace c = false)
  /\ (forall c, last (_normalize_text t) = Some c -> py_isspace c = false).
Proof.
  rewrite normalize_text_join. pose proof (py_split_words t) as Hws.
  split_and!.
  - intros c [Hc|(w & Hw & Hc)]%elem_of_py_join Hsp.
    + by apply list_elem_of_singleton in Hc.
    + rewrite Forall_forall in Hws. destruct (Hws w Hw) as [_ Hall].
      rewrite Forall_forall in Hall. rewrite (Hall c Hc) in Hsp. done.
  - by apply single_spaced_join.
  - intros c Hc. destruct (py_split t) as [|w ws]; [done|].
    destruct (py_join_words_head w ws) as (c' & r & Hj & Hc');
      [by apply Forall_cons in Hws as [? _]|].
    rewrite Hj in Hc. by injection Hc as <-.
  - intros c Hc. destruct (py_split t) as [|w ws] eqn:E; [done|].
    destruct (py_join_words_last (w :: ws)) as (r & c' & Hj & Hc'); [done..|].
    rewrite Hj, last_snoc in Hc. by injection Hc as <-.
Qed.

(** X3: the normalized text is empty exactly when the text has nothing
    but white space. *)
Theorem normalize_text_empty_iff t :
  _normalize_text t = [] <-> Forall (fun c => py_isspace c = true) t.
Proof.
  rewrite normalize_text_join. split.
  - intros E. apply (f_equal (filter (fun c => py_isspace c = false))) in E.
    rewrite filter_nonspace_join in E by apply py_split_words.
    unfold py_split in E. rewrite concat_split_from in E. cbn in E.
    apply Forall_forall. intros c Hc.
    destruct (py_isspace c) eqn:Hsp; [done|].
    assert (c ∈ filter (fun c => py_isspace c = false) t) as Hin
      by by apply list_elem_of_filter.
    rewrite E in Hin. by apply elem_of_nil in Hin.
  - intros H. unfold py_split. by rewrite split_from_spaces.
Qed.

(** X4: normalization keeps the words of the text, in their order, and
    is their join with single spaces; the final [strip] of the source has
    nothing left to remove. *)
Theorem normalize_text_keeps_words t :
  py_split (_normalize_text t) = py_split t
  /\ _normalize_text t = py_join (lit " ") (py_split t)
  /\ Forall is_word (py_split t).
Proof.
  split_and!.
  - rewrite normalize_text_join. apply py_split_join, py_split_words.
  - apply normalize_text_join.
  - apply py_split_words.
Qed.

(** X5: normalization keeps every character that is not white space, in
    order, adds none, and never lengthens the text. *)
Theorem normalize_text_keeps_characters t :
  filter (fun c => py_isspace c = false) (_normalize_text t)
  = filter (fun c => py_isspace c = false) t
  /\ py_len (_normalize_text t) <= py_len t.
Proof.
  rewrite normalize_text_join. split.
  - rewrite filter_nonspace_join by apply py_split_words.
    unfold py_split. by rewrite concat_split_from.
  - unfold py_len, py_split.
    pose proof (length_join_split_from [] t) as H. cbn [length] in H. lia.
Qed.

End NormalizeText.

(** ** scrap.py: the text of an element *)

Section ElementText.
Import Scrap Shape.
Implicit Types (s t : list N) (el : element).

Lemma lstrip_decomp s :
  exists sp, s = sp ++ lstrip s /\ Forall (fun c => py_isspace c = true) sp.
Proof.
  induction s as [|c s (sp & Hs & Hsp)]; [by exists []|].
  cbn [lstrip]. destruct (py_isspace c) eqn:Hc.
  - exists (c :: sp). split; [by rewrite Hs at 1 | by constructor].
  - by exists [].
Qed.

Lemma split_from_spaces_before cur sp s :
  Forall (fun c => py_isspace c = true) sp ->
  split_from cur (sp ++ s)
  = match sp, cur with
    | _ :: _, _ :: _ => rev cur :: split_from [] s
    | [], _ => split_from cur s
    | _, [] => split_from [] s
    end.
Proof.
  intros H. revert cur. induction H as [|c sp Hc _ IH]; intros cur; [by destruct cur|].
  cbn [app split_from]. rewrite Hc, IH. by destruct cur, sp.
Qed.

Lemma split_from_spaces_after cur s sp :
  Forall (fun c => py_isspace c = true) sp ->
  split_from cur (s ++ sp) = split_from cur s.
Proof.
  intros [|c sp' Hc Hsp]; [by rewrite app_nil_r|].
  rewrite split_from_app_space by done.
  by rewrite split_from_spaces, app_nil_r.
Qed.

(** [strip] takes no word away. *)
Lemma py_split_strip s : py_split (py_strip s) = py_split s.
Proof.
  unfold py_split, py_strip, rstrip.
  destruct (lstrip_decomp s) as (sp & Hs & Hsp).
  destruct (lstrip_decomp (rev (lstrip s))) as (sp' & Hs' & Hsp').
  apply (f_equal (@rev N)) in Hs'.
  rewrite rev_involutive, rev_app_distr in Hs'.
  rewrite Hs at 2. rewrite split_from_spaces_before by done.
  assert (split_from [] (lstrip s)
          = split_from [] (rev (lstrip (rev (lstrip s))))) as ->.
  { rewrite Hs' at 1. apply split_from_spaces_after. by apply Forall_rev. }
  by destruct sp.
Qed.

Lemma py_split_of_join (l : list (list N)) :
  py_split (py_join (lit " ") l) = flat_map py_split l.
Proof.
  unfold py_split. induction l as [|x [|y l] IH]; [done| |].
  - cbn. by rewrite app_nil_r.
  - rewrite py_join_cons_words, split_from_app_space by done.
    by rewrite IH.
Qed.

Lemma flat_map_py_split_truthy (l : list (list N)) :
  flat_map py_split (filter (fun s => truthy s = true) l) = flat_map py_split l.
Proof.
  induction l as [|x l IH]; [done|]. rewrite filter_cons.
  destruct x; cbn [truthy].
  - rewrite decide_False by done. by rewrite IH.
  - rewrite decide_True by done. cbn [flat_map]. by rewrite IH.
Qed.

(** X6: the text of an element consists of the words of the strings
    below it that [get_text] reads, in document order: splitting it gives
    the words of these strings, so it is these words joined with single
    spaces.  The strings read are the text nodes for an ordinary element
    and, for a [template], [rt], [rp], [style] or [script] element, the
    strings of the class of its own text, and of no other. *)
Theorem element_text_words el :
  py_split (_normalize_text (get_text (lit " ") el))
  = flat_map py_split (all_strings el)
  /\ _normalize_text (get_text (lit " ") el)
     = py_join (lit " ") (flat_map py_split (all_strings el))
  /\ (el_name el ∉ [lit "rt"; lit "rp"; lit "style"; lit "script";
                    lit "template"] ->
      all_strings el = descendant_strings (el_children el))
  /\ (el_name el = lit "template" ->
      all_strings el = class_strings TemplateString (el_children el))
  /\ (el_name el = lit "rt" ->
      all_strings el = class_strings RubyTextString (el_children el))
  /\ (el_name el = lit "rp" ->
      all_strings el = class_strings RubyParenthesisString (el_children el)).
Proof.
  assert (py_split (get_text (lit " ") el)
          = flat_map py_split (all_strings el)) as H.
  { unfold get_text.
    rewrite py_split_of_join, flat_map_py_split_truthy.
    induction (all_strings el) as [|x l IH]; [done|].
    cbn [map flat_map]. by rewrite py_split_strip, IH. }
  split_and!.
  - rewrite normalize_text_join.
    rewrite py_split_join by apply py_split_words. exact H.
  - by rewrite normalize_text_join, H.
  - intros Hn. unfold all_strings, string_containers.
    repeat (case_decide;
            [exfalso; apply Hn;
             match goal with E : el_name el = _ |- _ => rewrite E end;
             repeat first [by left | right]|]).
    done.
  - intros E. unfold all_strings. rewrite E.
    by assert (string_containers (lit "template") = Some TemplateString)
      as -> by by vm_compute.
  - intros E. unfold all_strings. rewrite E.
    by assert (string_containers (lit "rt") = Some RubyTextString)
      as -> by by vm_compute.
  - intros E. unfold all_strings. rewrite E.
    by assert (string_containers (lit "rp") = Some RubyParenthesisString)
      as -> by by vm_compute.
Qed.

(** X7: a limit below one does not limit the length.  On a non-empty
    text it cuts [1 - max_text_len] characters off the end (all of them
    when the text is shorter) and appends the literal, so the emitted
    text is never empty and can be longer than the text itself. *)
Theorem control_text_nonpositive_limit el (max_text_len : Z) :
  max_text_len <= 0 ->
  _normalize_text (get_text (lit " ") el) <> [] ->
  control_text el max_text_len
  = take (Z.to_nat (py_len (_normalize_text (get_text (lit " ") el))
                    + max_text_len - 1))
         (_normalize_text (get_text (lit " ") el))
    ++ ELLIPSIS.
Proof.
  intros Hm Hne. rewrite control_text_long; [|done|].
  - unfold slice_to. destruct (Z.ltb_spec (max_text_len - 1) 0); [|lia].
    do 2 f_equal. lia.
  - pose proof (py_len_nonneg (_normalize_text (get_text (lit " ") el))).
    destruct (_normalize_text (get_text (lit " ") el)); [done|].
    unfold py_len in *. cbn [length] in *. lia.
Qed.

Lemma control_text_nonpositive_limit_witness :
  control_text (mkElement (lit "button") [] [NavigableString (lit "Hello")]) (-1)
  = take 3 (lit "Hello") ++ Scrap.ELLIPSIS.
Proof.
  apply (control_text_nonpositive_limit
           (mkElement (lit "button") [] [NavigableString (lit "Hello")]) (-1)).
  - lia.
  - vm_compute. discriminate.
Defined.

End ElementText.

(** ** scrap.py: [_remove_comments] and [_remove_noise] *)

Section Cleaning.
Import Scrap Shape.
Implicit Types (n : node) (soup ch : list node) (el : element).

Lemma descendant_strings_app (l1 l2 : list node) :
  descendant_strings (l1 ++ l2) = descendant_strings l1 ++ descendant_strings l2.
Proof. apply flat_map_app. Qed.


(** A property of [flat_map f] on lists of nodes follows child by child. *)
Lemma flat_map_children {A} (f : node -> list node) (g : list node -> list A)
    (h : node -> list A) ch :
  (forall l1 l2, g (l1 ++ l2) = g l1 ++ g l2) -> g [] = [] ->
  Forall (fun c => g (f c) = h c) ch ->
  g (flat_map f ch) = flat_map h ch.
Proof.
  intros Happ Hnil. induction 1 as [|c ch Hc _ IH]; [done|].
  cbn [flat_map]. by rewrite Happ, Hc, IH.
Qed.



Lemma remove_comments_of_strings n :
  descendant_strings (remove_comments_of n) = descendant_strings_of n.
Proof.
  induction n as [nm a ch IH|s|s|s] using node_forall_ind; try reflexivity.
  cbn [remove_comments_of descendant_strings flat_map descendant_strings_of].
  rewrite app_nil_r.
  change (flat_map descendant_strings_of ?l) with (descendant_strings l).
  by apply flat_map_children; [apply descendant_strings_app|done|].
Qed.

Lemma remove_comments_strings soup :
  descendant_strings (_remove_comments soup) = descendant_strings soup.
Proof.
  unfold _remove_comments.
  apply flat_map_children; [apply descendant_strings_app|done|].
  apply Forall_forall. intros n _. apply remove_comments_of_strings.
Qed.

Lemma class_strings_app c (l1 l2 : list node) :
  class_strings c (l1 ++ l2) = class_strings c l1 ++ class_strings c l2.
Proof. apply flat_map_app. Qed.

Lemma remove_comments_of_class_strings c n :
  class_strings c (remove_comments_of n) = class_strings_of c n.
Proof.
  induction n as [nm a ch IH|s|s|c' s] using node_forall_ind.
  - cbn [remove_comments_of class_strings flat_map class_strings_of].
    rewrite app_nil_r.
    change (flat_map (class_strings_of c) ?l) with (class_strings c l).
    by apply flat_map_children; [apply class_strings_app|done|].
  - reflexivity.
  - reflexivity.
  - cbn [remove_comments_of class_strings flat_map class_strings_of].
    apply app_nil_r.
Qed.

Lemma remove_comments_class_strings c soup :
  class_strings c (_remove_comments soup) = class_strings c soup.
Proof.
  unfold _remove_comments.
  apply flat_map_children; [apply class_strings_app|done|].
  apply Forall_forall. intros n _. apply remove_comments_of_class_strings.
Qed.

(** [get_text] reads the same strings with and without the comments. *)
Lemma remove_comments_all_strings nm a ch :
  all_strings (mkElement nm a (_remove_comments ch))
  = all_strings (mkElement nm a ch).
Proof.
  unfold all_strings. cbn [el_name el_children].
  destruct (string_containers nm) as [c|].
  - apply remove_comments_class_strings.
  - apply remove_comments_strings.
Qed.

Lemma remove_comments_of_views n :
  map el_view (descendant_tags (remove_comments_of n))
  = map el_view (descendant_tags_of n).
Proof.
  induction n as [nm a ch IH|s|s|s] using node_forall_ind; try reflexivity.
  cbn [remove_comments_of]. rewrite descendant_tags_cons.
  cbn [descendant_tags_of descendant_tags flat_map]. rewrite app_nil_r.
  cbn [map]. unfold el_view at 1 3. cbn [el_name el_attrs].
  change (flat_map remove_comments_of ch) with (_remove_comments ch).
  rewrite remove_comments_all_strings. f_equal.
  unfold _remove_comments.
  induction IH as [|c ch Hc _ IHch]; [done|].
  cbn [flat_map].
  change (flat_map descendant_tags_of ?l) with (descendant_tags l) in *.
  rewrite descendant_tags_app, !map_app, Hc. by f_equal.
Qed.

Lemma remove_comments_views soup :
  map el_view (descendant_tags (_remove_comments soup))
  = map el_view (descendant_tags soup).
Proof.
  induction soup as [|n soup IHs]; [done|].
  unfold _remove_comments in *. cbn [flat_map].
  rewrite descendant_tags_app, descendant_tags_cons, !map_app, IHs.
  by rewrite remove_comments_of_views.
Qed.















End Cleaning.

Section Noise.
Import Scrap Shape.
Implicit Types (n : node) (soup ch : list node) (el : element).

Lemma is_noise_false nm : is_noise nm = false <-> nm ∉ NOISE_TAGS.
Proof. unfold is_noise. apply bool_decide_eq_false. Qed.

Lemma remove_noise_of_names n :
  Forall (fun el => el_name el ∉ NOISE_TAGS) (descendant_tags (remove_noise_of n)).
Proof.
  induction n as [nm a ch IH|s|s|s] using node_forall_ind; try by constructor.
  cbn [remove_noise_of]. destruct (is_noise nm) eqn:E; [constructor|].
  rewrite descendant_tags_cons.
  cbn [descendant_tags_of descendant_tags flat_map]. rewrite app_nil_r.
  constructor; [by apply is_noise_false|].
  change (flat_map descendant_tags_of ?l) with (descendant_tags l).
  induction IH as [|c ch Hc _ IHch]; [constructor|].
  cbn [flat_map]. rewrite descendant_tags_app. by apply Forall_app.
Qed.

Lemma remove_noise_names soup :
  Forall (fun el => el_name el ∉ NOISE_TAGS) (descendant_tags (_remove_noise soup)).
Proof.
  unfold _remove_noise. induction soup as [|n soup IH]; [constructor|].
  cbn [flat_map]. rewrite descendant_tags_app. apply Forall_app.
  split; [apply remove_noise_of_names | exact IH].
Qed.

Lemma remove_noise_of_strings n :
  descendant_strings (remove_noise_of n) `sublist_of` descendant_strings_of n.
Proof.
  induction n as [nm a ch IH|s|s|s] using node_forall_ind; try reflexivity.
  cbn [remove_noise_of]. destruct (is_noise nm); [apply sublist_nil_l|].
  cbn [descendant_strings flat_map descendant_strings_of]. rewrite app_nil_r.
  change (flat_map descendant_strings_of ?l) with (descendant_strings l).
  induction IH as [|c ch Hc _ IHch]; [done|].
  cbn [flat_map]. rewrite descendant_strings_app.
  change (descendant_strings (c :: ch))
    with (descendant_strings_of c ++ descendant_strings ch).
  by apply sublist_app.
Qed.

Lemma remove_noise_strings soup :
  descendant_strings (_remove_noise soup) `sublist_of` descendant_strings soup.
Proof.
  unfold _remove_noise. induction soup as [|n soup IH]; [done|].
  cbn [flat_map]. rewrite descendant_strings_app.
  change (descendant_strings (n :: soup))
    with (descendant_strings_of n ++ descendant_strings soup).
  apply sublist_app; [apply remove_noise_of_strings | exact IH].
Qed.

(** A tree without noise elements is left as it is. *)
Lemma remove_noise_of_fixed n :
  Forall (fun el => el_name el ∉ NOISE_TAGS) (descendant_tags_of n) ->
  remove_noise_of n = [n].
Proof.
  induction n as [nm a ch IH|s|s|s] using node_forall_ind; try done.
  cbn [descendant_tags_of remove_noise_of].
  intros [Hnm Hch]%Forall_cons. cbn [el_name] in Hnm.
  apply is_noise_false in Hnm. rewrite Hnm. do 2 f_equal.
  induction IH as [|c ch Hc _ IHch]; [done|].
  cbn [flat_map] in *. apply Forall_app in Hch as [H1 H2].
  by rewrite Hc, IHch.
Qed.

Lemma remove_noise_fixed soup :
  Forall (fun el => el_name el ∉ NOISE_TAGS) (descendant_tags soup) ->
  _remove_noise soup = soup.
Proof.
  unfold descendant_tags, _remove_noise.
  induction soup as [|n soup IH]; [done|].
  cbn [flat_map]. intros [H1 H2]%Forall_app.
  by rewrite remove_noise_of_fixed, IH.
Qed.

(** X10: after [_remove_noise] no element named in [NOISE_TAGS] is left
    at any depth, whatever its attributes, and the text nodes left are
    text nodes of the document, in their order. *)
Theorem remove_noise_removes_all soup :
  Forall (fun el => el_name el ∉ NOISE_TAGS)
         (descendant_tags (_remove_noise soup))
  /\ descendant_strings (_remove_noise soup)
     `sublist_of` descendant_strings soup.
Proof. split; [apply remove_noise_names | apply remove_noise_strings]. Qed.

(** X11: [_remove_noise] leaves a tree without noise elements as it is;
    in particular a second pass changes nothing. *)
Theorem remove_noise_fixed_point :
  (forall soup,
      Forall (fun el => el_name el ∉ NOISE_TAGS) (descendant_tags soup) ->
      _remove_noise soup = soup)
  /\ (forall soup, _remove_noise (_remove_noise soup) = _remove_noise soup).
Proof.
  split; [apply remove_noise_fixed|].
  intros soup. apply remove_noise_fixed, remove_noise_names.
Qed.

Lemma remove_noise_fixed_point_witness :
  _remove_noise Scenarios.hidden_button_and_link_doc
  = Scenarios.hidden_button_and_link_doc.
Proof.
  apply (proj1 remove_noise_fixed_point).
  apply Forall_forall. intros el Hel. apply is_noise_false.
  vm_compute in Hel.
  repeat (apply elem_of_cons in Hel as [->|Hel]; [reflexivity|]).
  by apply elem_of_nil in Hel.
Defined.

Lemma remove_passes_commute_of n :
  _remove_noise (remove_comments_of n) = _remove_comments (remove_noise_of n).
Proof.
  induction n as [nm a ch IH|s|s|s] using node_forall_ind; try reflexivity.
  cbn [remove_comments_of remove_noise_of].
  unfold _remove_noise at 1. cbn [flat_map remove_noise_of]. rewrite app_nil_r.
  destruct (is_noise nm); [done|].
  unfold _remove_comments at 1. cbn [flat_map remove_comments_of].
  rewrite app_nil_r. do 2 f_equal.
  induction IH as [|c ch Hc _ IHch]; [done|].
  cbn [flat_map]. rewrite !flat_map_app.
  change (flat_map remove_noise_of (remove_comments_of c))
    with (_remove_noise (remove_comments_of c)).
  change (flat_map remove_comments_of (remove_noise_of c))
    with (_remove_comments (remove_noise_of c)).
  by rewrite Hc, IHch.
Qed.

Lemma remove_passes_commute soup :
  _remove_noise (_remove_comments soup) = _remove_comments (_remove_noise soup).
Proof.
  induction soup as [|n soup IH]; [done|].
  unfold _remove_noise, _remove_comments in *. cbn [flat_map].
  rewrite !flat_map_app, IH. f_equal. apply remove_passes_commute_of.
Qed.

(** X12: the two cleaning passes commute: removing the noise first and
    the comments second gives the same tree. *)
Theorem cleaning_passes_commute soup :
  _remove_noise (_remove_comments soup) = _remove_comments (_remove_noise soup).
Proof. apply remove_passes_commute. Qed.

End Noise.

(** ** scrap.py: further properties of the inventory *)

Section InventoryFacts.
Import Scrap Shape Scenarios.
Implicit Types (html_parser : list N -> list node) (html : list N) (m : Z)
               (el : element) (items : list ControlItem).

(** The loop body reads an element through its view only. *)
Lemma control_item_view el1 el2 m :
  el_view el1 = el_view el2 ->
  control_item el1 m = control_item el2 m
  /\ matches_control_selector el1 = matches_control_selector el2.
Proof.
  destruct el1 as [n1 a1 c1], el2 as [n2 a2 c2]. unfold el_view.
  cbn [el_name el_attrs]. intros [= -> -> Hs].
  split.
  - unfold control_item, _is_hidden, control_text, get_text, _filter_attrs, el_get.
    cbn [el_name el_attrs]. by rewrite Hs.
  - reflexivity.
Qed.

Lemma extract_loop_views (l1 l2 : list element) m acc :
  map el_view l1 = map el_view l2 ->
  extract_loop (filter (fun el => matches_control_selector el = true) l1) m acc
  = extract_loop (filter (fun el => matches_control_selector el = true) l2) m acc.
Proof.
  revert l2 acc. induction l1 as [|e1 l1 IH]; intros [|e2 l2] acc; try done.
  cbn [map]. intros Hcons.
  assert (el_view e1 = el_view e2) as Hv by congruence.
  assert (map el_view l1 = map el_view l2) as Hl by congruence.
  destruct (control_item_view e1 e2 m Hv) as [Hc Hm].
  rewrite !filter_cons, Hm.
  destruct (decide (matches_control_selector e2 = true)) as [Hsel|Hsel];
    [|by apply IH].
  cbn [extract_loop]. rewrite Hc.
  destruct (control_item e2 m) as [[it|]|ex]; cbn [bind]; [by apply IH..|done].
Qed.

(** X13: the comments of a document never change the inventory: without
    the pass that removes them the extractor gives the same result. *)
Theorem comments_do_not_change_inventory (soup : list node) m :
  extract_loop (select (_remove_noise soup)) m [] = extract_controls_soup soup m.
Proof.
  unfold extract_controls_soup. rewrite remove_passes_commute.
  unfold select. symmetry. apply extract_loop_views, remove_comments_views.
Qed.

(** Every item comes from a selected element. *)
Lemma item_from_selected html_parser html m items it :
  extract_controls_inventory html_parser html m = Ok items ->
  it ∈ items ->
  exists el, el ∈ selected (html_parser html)
             /\ control_item el m = Ok (Some it).
Proof.
  rewrite extract_controls_inventory_unfold.
  intros (rs & Hrs & ->)%extract_loop_Ok Hit. cbn [app] in Hit.
  apply list_elem_of_omap in Hit as (r & Hr & Heq). cbn in Heq. subst r.
  apply list_elem_of_lookup in Hr as [i Hi].
  destruct (Forall2_lookup_r _ _ _ _ _ Hrs Hi) as (el & Hel & Hctl).
  exists el. split; [by eapply list_elem_of_lookup_2 | done].
Qed.

(** X14: no item has the tag of a noise element, even where such an
    element carries a control role. *)
Theorem noise_elements_never_emitted html_parser html m items :
  extract_controls_inventory html_parser html m = Ok items ->
  Forall (fun it => tag it ∉ NOISE_TAGS) items.
Proof.
  intros Hex. apply Forall_forall. intros it Hit.
  destruct (item_from_selected _ _ _ _ _ Hex Hit) as (el & Hel & Hctl).
  apply control_item_Some in Hctl as (_ & -> & _). cbn [tag].
  unfold selected, select in Hel. apply list_elem_of_filter in Hel as [_ Hel].
  pose proof (remove_noise_names (_remove_comments (html_parser html))) as Hn.
  rewrite Forall_forall in Hn. by apply Hn.
Qed.

Lemma noise_elements_never_emitted_witness :
  Forall (fun it => tag it ∉ NOISE_TAGS)
    [mkControlItem (lit "label") (Some (lit "Name")) None;
     mkControlItem (lit "input") None (Some [(lit "name", lit "n")]);
     mkControlItem (lit "div") (Some (lit "Go now"))
       (Some [(lit "role", lit "button")])].
Proof.
  apply (noise_elements_never_emitted (fun _ => nested_doc) [] 80).
  reflexivity.
Defined.

Lemma extract_loop_acc (els : list element) m acc :
  extract_loop els m acc = (r <-! extract_loop els m []; Ok (acc ++ r)).
Proof.
  revert acc. induction els as [|el els IH]; intros acc; cbn [extract_loop].
  - cbn. by rewrite app_nil_r.
  - destruct (control_item el m) as [[it|]|e]; cbn [bind]; [| |done].
    + rewrite (IH (acc ++ [it])), (IH ([] ++ [it])).
      destruct (extract_loop els m []); cbn [bind]; [|done].
      by rewrite <- app_assoc.
    + apply IH.
Qed.

Lemma selected_app (s1 s2 : list node) :
  selected (s1 ++ s2) = selected s1 ++ selected s2.
Proof.
  unfold selected, select, _remove_noise, _remove_comments, descendant_tags.
  by rewrite !flat_map_app, filter_app.
Qed.

(** X15: documents side by side are extracted independently: the
    inventory of their concatenation is the inventory of the first
    followed by that of the second, and the first exception met ends the
    run. *)
Theorem extract_controls_app (s1 s2 : list node) m :
  extract_controls_soup (s1 ++ s2) m
  = (i1 <-! extract_controls_soup s1 m;
     i2 <-! extract_controls_soup s2 m;
     Ok (i1 ++ i2)).
Proof.
  change (extract_controls_soup ?s m) with (extract_loop (selected s) m []).
  rewrite selected_app, extract_loop_app.
  destruct (extract_loop (selected s1) m []) as [i1|e]; cbn [bind]; [|done].
  apply extract_loop_acc.
Qed.

End InventoryFacts.

Section SelectorFacts.
Import Scrap Shape Scenarios.
Implicit Types (html_parser : list N -> list node) (html : list N) (m : Z)
               (el : element) (items : list ControlItem).

(** The role values of the selector are non-empty and hold no space. *)
Lemma role_values_plain (value : list N) :
  RoleSelector value ∈ CONTROL_SELECTOR -> value <> [] /\ 32%N ∉ value.
Proof.
  unfold CONTROL_SELECTOR. intros H.
  repeat (apply elem_of_cons in H as [H|H];
          [first [discriminate H
                 | injection H as ->; split;
                   [by vm_compute
                   | intros Hin; vm_compute in Hin;
                     repeat (apply elem_of_cons in Hin as [Hin|Hin];
                             [discriminate Hin|]);
                     by apply elem_of_nil in Hin]]|]).
  by apply elem_of_nil in H.
Qed.

(** A value that matches a role selector is emitted as the role. *)
Lemma css_attr_string (v : attr_value) (value : list N) :
  css_attr_text v = value -> value <> [] -> 32%N ∉ value ->
  attr_string v = Some value.
Proof.
  destruct v as [|s|l]; cbn [css_attr_text attr_string].
  - by intros <-.
  - by intros <-.
  - intros <- Hne Hsp. f_equal. destruct l as [|x [|y l]].
    + done.
    + destruct x; [by cbn|done].
    + exfalso. apply Hsp. cbn [map]. rewrite py_join_cons_words.
      apply elem_of_app. right. left.
Qed.

Lemma matches_value_cases (value text : list N) :
  matches_value value text = true
  <-> text = value \/ text = value ++ [10%N].
Proof.
  unfold matches_value.
  by rewrite orb_true_iff, !bool_decide_eq_true.
Qed.

Lemma matches_control_selector_cases el :
  matches_control_selector el = true ->
  TypeSelector (el_name el) ∈ CONTROL_SELECTOR
  \/ exists v role, el_get el (lit "role") = Some v
                    /\ RoleSelector role ∈ CONTROL_SELECTOR
                    /\ (css_attr_text v = role
                        \/ css_attr_text v = role ++ [10%N]).
Proof.
  unfold matches_control_selector. rewrite existsb_exists.
  intros (sel & Hin%list_elem_of_In & Hm). destruct sel as [name|role].
  - left. cbn in Hm. by apply bool_decide_eq_true in Hm as ->.
  - right. cbn [matches_simple] in Hm.
    destruct (el_get el (lit "role")) as [v|]; [|done].
    apply matches_value_cases in Hm. by exists v, role.
Qed.

(** X16: every item answers to the selector: its tag is one of the nine
    control tags, or its attributes hold a [role] entry whose value is
    one of the ten role values, alone or followed by one line feed, which
    the pattern of the selector lets pass. *)
Theorem items_answer_to_selector html_parser html m items :
  Forall (fun el => dict_wf (el_attrs el)) (selected (html_parser html)) ->
  extract_controls_inventory html_parser html m = Ok items ->
  Forall (fun it =>
            TypeSelector (tag it) ∈ CONTROL_SELECTOR
            \/ exists a value role,
                 attrs it = Some a
                 /\ dict_get a (lit "role") = Some value
                 /\ RoleSelector role ∈ CONTROL_SELECTOR
                 /\ (value = role \/ value = role ++ [10%N]))
         items.
Proof.
  intros Hwf Hex. apply Forall_forall. intros it Hit.
  destruct (item_from_selected _ _ _ _ _ Hex Hit) as (el & Hel & Hctl).
  rewrite Forall_forall in Hwf. specialize (Hwf el Hel).
  apply control_item_Some in Hctl as (_ & -> & _). cbn [tag attrs].
  unfold selected, select in Hel. apply list_elem_of_filter in Hel as [Hm _].
  apply matches_control_selector_cases in Hm
    as [?|(v & role & Hget & Hin & Hcss)]; [by left|].
  right. destruct (role_values_plain role Hin) as [Hne Hsp].
  assert (css_attr_text v <> [] /\ 32%N ∉ css_attr_text v) as [Hne' Hsp'].
  { destruct Hcss as [-> | ->]; [done|]. split.
    - by destruct role.
    - intros [?|Hin']%elem_of_app; [done|].
      by apply list_elem_of_singleton in Hin'. }
  assert (dict_get (_filter_attrs el KEEP_ATTRS) (lit "role")
          = Some (css_attr_text v)) as Hrole.
  { rewrite filter_attrs_lookup by done.
    change (attr_kept KEEP_ATTRS (lit "role")) with true. cbn iota.
    rewrite Hget. cbn. by apply css_attr_string. }
  exists (_filter_attrs el KEEP_ATTRS), (css_attr_text v), role.
  split_and!; [|done..].
  by destruct (_filter_attrs el KEEP_ATTRS).
Qed.

Lemma items_answer_to_selector_witness :
  Forall (fun it =>
            TypeSelector (tag it) ∈ CONTROL_SELECTOR
            \/ exists a value role,
                 attrs it = Some a
                 /\ dict_get a (lit "role") = Some value
                 /\ RoleSelector role ∈ CONTROL_SELECTOR
                 /\ (value = role \/ value = role ++ [10%N]))
    [mkControlItem (lit "label") (Some (lit "Name")) None;
     mkControlItem (lit "div") (Some (lit "Go"))
       (Some [(lit "role", lit "button" ++ [10%N])]);
     mkControlItem (lit "template") (Some (lit "Open"))
       (Some [(lit "role", lit "link")])].
Proof.
  apply (items_answer_to_selector (fun _ => role_doc) [] 80).
  - apply Forall_forall. intros el Hel. vm_compute in Hel.
    repeat (apply elem_of_cons in Hel as [->|Hel];
            [unfold dict_wf; apply (bool_decide_unpack _); vm_compute; exact I|]).
    by apply elem_of_nil in Hel.
  - reflexivity.
Defined.

End SelectorFacts.

(** ** scrap.py: the exception of the extractor *)

Section ExtractorErrors.
Import Scrap Shape Scenarios.
Implicit Types (html_parser : list N -> list node) (html : list N) (m : Z)
               (el : element) (items : list ControlItem).

Lemma lower_of_or_empty_Raise (v : option attr_value) e :
  lower_of (or_empty v) = Raise e ->
  e = AttributeError /\ exists x l, v = Some (AttrList (x :: l)).
Proof.
  destruct v as [[|s|[|x l]]|]; try done.
  - by rewrite or_empty_str.
  - cbn. intros [= <-]. eauto.
Qed.

Lemma is_hidden_Raise el e :
  _is_hidden el = Raise e -> e = AttributeError /\ lowers_a_list el.
Proof.
  unfold _is_hidden, lowers_a_list.
  destruct (lower_of (or_empty (el_get el (lit "aria-hidden"))))
    as [a|e'] eqn:Ha; cbn [bind].
  - case_decide; [done|]. case_decide as Hn; [|done].
    destruct (lower_of (or_empty (el_get el (lit "type"))))
      as [t|e'] eqn:Ht; cbn [bind].
    + by case_decide.
    + intros [= ->]. apply lower_of_or_empty_Raise in Ht as [-> Hl]. eauto.
  - intros [= ->]. apply lower_of_or_empty_Raise in Ha as [-> Hl]. eauto.
Qed.

Lemma control_item_Raise el m e :
  control_item el m = Raise e -> _is_hidden el = Raise e.
Proof.
  unfold control_item. destruct (_is_hidden el) as [[|]|e']; cbn [bind].
  - done.
  - cbv zeta. by destruct (negb _ && negb _).
  - by intros [= ->].
Qed.

Lemma extract_loop_Raise (els : list element) m acc e :
  extract_loop els m acc = Raise e ->
  exists el, el ∈ els /\ control_item el m = Raise e.
Proof.
  revert acc. induction els as [|el els IH]; intros acc; [done|].
  cbn [extract_loop]. destruct (control_item el m) as [[it|]|e'] eqn:E; cbn [bind].
  - intros (el' & ? & ?)%IH. exists el'. split; [by right | done].
  - intros (el' & ? & ?)%IH. exists el'. split; [by right | done].
  - intros [= ->]. exists el. split; [left | done].
Qed.

(** X17: the extractor can end in one exception only, the
    [AttributeError] of [.lower()] on a list: it raises only where a
    selected element carries a non-empty list as [aria-hidden] value or,
    for an input, as [type] value; and a selected element with such an
    [aria-hidden] value makes it raise. *)
Theorem extractor_raises_only_on_lists html_parser html m :
  (forall e, extract_controls_inventory html_parser html m = Raise e ->
      e = AttributeError
      /\ exists el, el ∈ selected (html_parser html) /\ lowers_a_list el)
  /\ (forall el x l,
        el ∈ selected (html_parser html) ->
        el_get el (lit "aria-hidden") = Some (AttrList (x :: l)) ->
        extract_controls_inventory html_parser html m = Raise AttributeError).
Proof.
  assert (forall e, extract_controls_inventory html_parser html m = Raise e ->
      e = AttributeError
      /\ exists el, el ∈ selected (html_parser html) /\ lowers_a_list el) as H1.
  { intros e. rewrite extract_controls_inventory_unfold.
    intros (el & Hel & Hctl)%extract_loop_Raise.
    apply control_item_Raise, is_hidden_Raise in Hctl as [-> Hl]. eauto. }
  split; [exact H1|].
  intros el x l Hel Hget.
  destruct (extract_controls_inventory html_parser html m) as [items|e] eqn:E.
  - exfalso. rewrite extract_controls_inventory_unfold in E.
    apply extract_loop_Ok in E as (rs & Hrs & _).
    apply list_elem_of_lookup in Hel as [i Hi].
    destruct (Forall2_lookup_l _ _ _ _ _ Hrs Hi) as (r & _ & Hctl).
    unfold control_item, _is_hidden in Hctl. by rewrite Hget in Hctl.
  - by destruct (H1 e eq_refl) as [-> _].
Qed.

Lemma extractor_raises_only_on_lists_witness :
  extract_controls_inventory (fun _ => list_valued_doc) [] 80
  = Raise AttributeError.
Proof.
  apply (proj2 (extractor_raises_only_on_lists (fun _ => list_valued_doc) [] 80)
           (mkElement (lit "button")
              [(lit "aria-hidden", AttrList [Some (lit "true")])]
              [NavigableString (lit "Hi")])
           (Some (lit "true")) []).
  - right. left.
  - reflexivity.
Defined.

(** ** scrap.py: distinct inventories, distinct documents *)

Lemma inventory_round_trip_wf items :
  Forall item_wf items ->
  loads (inventory_to_json items) ≫= items_of_json = Some items.
Proof.
  intros Hwf. rewrite inventory_to_json_compact, loads_compact.
  - cbn [mbind option_bind]. by apply items_of_json_payload.
  - apply payload_wf. eapply Forall_impl; [exact Hwf|].
    by intros it (_ & _ & ?).
Qed.

(** X18: the serializer is injective on inventories without empty
    fields: two such inventories with the same document are equal. *)
Theorem inventory_to_json_injective items1 items2 :
  Forall item_wf items1 -> Forall item_wf items2 ->
  inventory_to_json items1 = inventory_to_json items2 ->
  items1 = items2.
Proof.
  intros H1 H2 E.
  apply inventory_round_trip_wf in H1, H2. rewrite E in H1. congruence.
Qed.

Lemma inventory_to_json_injective_witness :
  [link_item; cafe_item] = [link_item; cafe_item].
Proof.
  assert (Forall item_wf [link_item; cafe_item]) as Hwf.
  { apply Forall_forall. intros it Hit.
    repeat (apply elem_of_cons in Hit as [->|Hit];
            [split_and!; [by vm_compute | by vm_compute |];
             intros a Ha; vm_compute in Ha;
             first [discriminate Ha
                   | injection Ha as <-; unfold dict_wf;
                     apply (bool_decide_unpack _); vm_compute; exact I]|]).
    by apply elem_of_nil in Hit. }
  apply (inventory_to_json_injective _ _ Hwf Hwf). reflexivity.
Defined.

End ExtractorErrors.

(** ** llm.py: every run of the script *)

Section LlmRuns.
Import Llm.

Lemma main_scalar_raises (data : value) :
  (forall d, data <> VDict d) ->
  (forall out, main data = Ok out -> out = [VStr (lit "ERROR:"); data])
  /\ main data <> Raise IndexError.
Proof.
  intros Hd. unfold main, py_in.
  destruct data as [| | | |s|l|d]; cbn [bind]; try done.
  - destruct (str_contains _ s); cbn [getitem_str bind]; split; congruence.
  - destruct (existsb _ l); cbn [getitem_str bind]; split; congruence.
  - by destruct (Hd d).
Qed.

(** X19: the script prints in two cases only.  It prints "ERROR:" and
    the payload exactly when the payload lacks [choices], and it prints a
    content exactly when the payload has the expected shape, the content
    being that of the first choice's message; on every other payload it
    ends in an exception and prints nothing. *)
Theorem llm_main_prints_iff (data : value) (out : list value) :
  main data = Ok out
  <-> (lacks_choices data /\ out = [VStr (lit "ERROR:"); data])
      \/ (exists content, expected_shape data content /\ out = [content]).
Proof.
  split.
  - intros Hmain. destruct data as [| | | |s|l|d]; try done.
    + left. revert Hmain. unfold main, py_in. cbn [bind lacks_choices].
      destruct (str_contains _ s); cbn [getitem_str bind]; [done|].
      by intros [= <-].
    + left. revert Hmain. unfold main, py_in. cbn [bind lacks_choices].
      destruct (existsb _ l) eqn:E; cbn [getitem_str bind]; [done|].
      intros [= <-]. split; [by apply existsb_is_str | done].
    + destruct (decide (lit "choices" ∈ keys d)) as [Hin|Hn].
      * right. destruct (main_prints_content_inv d out Hin Hmain)
          as (content & -> & Hshape). eauto.
      * left. split; [done|].
        rewrite (main_without_choices (VDict d)) in Hmain by done. congruence.
  - intros [[Hl ->] | (content & Hs & ->)].
    + by apply main_without_choices.
    + by apply main_expected_shape.
Qed.

Lemma llm_main_prints_iff_witness :
  main (VDict [(lit "choices",
                VList [VDict [(lit "message",
                               VDict [(lit "content", VStr (lit "Hi"))])]])])
  = Ok [VStr (lit "Hi")].
Proof.
  apply (proj2 (llm_main_prints_iff _ _)). right.
  exists (VStr (lit "Hi")). split; [|reflexivity].
  eexists _, _, _, _. split_and!; reflexivity.
Defined.

(** X20: the script ends in an [IndexError] exactly on an object whose
    [choices] field is an empty array or an empty string. *)
Theorem llm_main_index_error_iff (data : value) :
  main data = Raise IndexError
  <-> exists d, data = VDict d
        /\ (dict_get d (lit "choices") = Some (VList [])
            \/ dict_get d (lit "choices") = Some (VStr [])).
Proof.
  split.
  - intros Hmain. destruct data as [| | | |s|l|d];
      try (by apply main_scalar_raises in Hmain).
    exists d. split; [done|]. revert Hmain. unfold main, py_in.
    destruct (bool_decide _); cbn [bind getitem_str]; [|done].
    destruct (dict_get d (lit "choices")) as [ch|]; [|done].
    cbn [bind]. destruct ch as [| | | | [|c0 s] | [|first rest] | ];
      cbn [bind getitem_0]; try done; try (by right); try (by left).
    destruct first as [| | | | | | c]; cbn [getitem_str bind]; try done.
    destruct (dict_get c (lit "message")) as [msg|]; [|done].
    cbn [bind]. destruct msg as [| | | | | | m]; cbn [getitem_str]; try done.
    by destruct (dict_get m (lit "content")).
  - intros (d & -> & Hch). unfold main, py_in.
    rewrite bool_decide_eq_true_2
      by (destruct Hch; eapply dict_get_elem_of_keys; eauto).
    cbn [bind getitem_str]. by destruct Hch as [-> | ->].
Qed.

Lemma llm_main_index_error_iff_witness :
  main (VDict [(lit "id", VInt 7); (lit "choices", VList [])])
  = Raise IndexError.
Proof.
  apply (proj2 (llm_main_index_error_iff _)).
  eexists. split; [reflexivity|]. left. reflexivity.
Defined.

End LlmRuns.

(** ** scrap.py: fetching a page *)

Section FetchFacts.
Import Fetch.
Variable session_get : pystr -> outcome Response.
Variable fetch_html_playwright : pystr -> outcome pystr.

Lemma raise_for_status_Returned resp :
  raise_for_status resp = Returned tt
  <-> (status_code resp < 400 \/ 600 <= status_code resp)%Z.
Proof.
  unfold raise_for_status.
  destruct (400 <=? status_code resp)%Z eqn:E1;
    destruct (status_code resp <? 600)%Z eqn:E2; cbn [andb];
    split; intros H; try done; lia.
Qed.

Lemma fetch_html_requests_Returned url html :
  fetch_html_requests session_get url = Returned html
  <-> exists resp, session_get url = Returned resp
        /\ (status_code resp < 400 \/ 600 <= status_code resp)%Z
        /\ html = resp_text resp.
Proof.
  unfold fetch_html_requests. split.
  - destruct (session_get url) as [resp|e]; [|done].
    destruct (raise_for_status resp) as [[]|e] eqn:E; [|done].
    intros [= <-]. exists resp. by rewrite <-raise_for_status_Returned.
  - intros (resp & -> & Hs & ->).
    apply raise_for_status_Returned in Hs. by rewrite Hs.
Qed.

Lemma fetch_html_requests_Raised url e :
  fetch_html_requests session_get url = Raised e
  <-> session_get url = Raised e
      \/ (exists resp, session_get url = Returned resp
            /\ (400 <= status_code resp < 600)%Z /\ e = HTTPError).
Proof.
  unfold fetch_html_requests, raise_for_status. split.
  - destruct (session_get url) as [resp|e']; [|intros [= ->]; by left].
    destruct (400 <=? status_code resp)%Z eqn:E1;
      destruct (status_code resp <? 600)%Z eqn:E2; cbn [andb]; try done.
    intros [= <-]. right. exists resp. split_and!; [done|lia|lia|done].
  - intros [-> | (resp & -> & Hs & ->)]; [done|].
    destruct (400 <=? status_code resp)%Z eqn:E1;
      destruct (status_code resp <? 600)%Z eqn:E2; cbn [andb]; try done; lia.
Qed.

(** X21: the page of the plain request wins.  When the request is
    answered with a status outside 400..599, [fetch_html] returns the
    text of that response and the browser's answer plays no part; when
    the status is a client or server error, or the request raises an
    [Exception], [fetch_html] is the browser fetch, result and exception
    alike. *)
Theorem fetch_html_prefers_requests (url : pystr) :
  (forall resp,
      session_get url = Returned resp ->
      (status_code resp < 400 \/ 600 <= status_code resp)%Z ->
      fetch_html session_get fetch_html_playwright url
      = Returned (resp_text resp))
  /\ (forall resp,
        session_get url = Returned resp ->
        (400 <= status_code resp < 600)%Z ->
        fetch_html session_get fetch_html_playwright url
        = fetch_html_playwright url)
  /\ (forall e,
        session_get url = Raised e -> exc_is_Exception e = true ->
        fetch_html session_get fetch_html_playwright url
        = fetch_html_playwright url).
Proof.
  split_and!.
  - intros resp Hget Hs. unfold fetch_html.
    by rewrite (proj2 (fetch_html_requests_Returned url (resp_text resp)))
      by eauto.
  - intros resp Hget Hs. unfold fetch_html.
    by rewrite (proj2 (fetch_html_requests_Raised url HTTPError)) by eauto 10.
  - intros e Hget He. unfold fetch_html.
    rewrite (proj2 (fetch_html_requests_Raised url e)) by eauto.
    by rewrite He.
Qed.

(** X22: [fetch_html] ends in an exception only when the browser fetch
    was tried and raised it, or when the request itself raised something
    that is no [Exception] (an interrupt, an exit), which is passed on
    with the browser never tried; an error status alone never reaches
    the caller. *)
Theorem fetch_html_raises_inv (url : pystr) (e : exception) :
  fetch_html session_get fetch_html_playwright url = Raised e ->
  (fetch_html_playwright url = Raised e
   /\ ((exists e0, session_get url = Raised e0 /\ exc_is_Exception e0 = true)
       \/ (exists resp, session_get url = Returned resp
             /\ (400 <= status_code resp < 600)%Z)))
  \/ (session_get url = Raised e /\ exc_is_Exception e = false).
Proof.
  unfold fetch_html.
  destruct (fetch_html_requests session_get url) as [html|e0] eqn:E; [done|].
  apply fetch_html_requests_Raised in E.
  destruct (exc_is_Exception e0) eqn:He.
  - intros Hp. left. split; [done|].
    destruct E as [E | (resp & E & Hs & ->)]; [left | right]; eauto.
  - intros [= <-]. right. destruct E as [E | (resp & E & Hs & ->)]; [done|].
    done.
Qed.

End FetchFacts.

Lemma fetch_html_prefers_requests_witness :
  Fetch.fetch_html
    (fun _ => Fetch.Returned (Fetch.mkResponse 200 (lit "<a href=x>y</a>")))
    (fun _ => Fetch.Raised (Fetch.mkException (lit "TimeoutError") true))
    (lit "https://example.com")
  = Fetch.Returned (lit "<a href=x>y</a>")
  /\ Fetch.fetch_html
       (fun _ => Fetch.Returned (Fetch.mkResponse 503 (lit "busy")))
       (fun _ => Fetch.Returned (lit "<p>rendered</p>"))
       (lit "https://example.com")
     = Fetch.Returned (lit "<p>rendered</p>")
  /\ Fetch.fetch_html
       (fun _ => Fetch.Raised (Fetch.mkException (lit "ConnectionError") true))
       (fun _ => Fetch.Returned (lit "<p>rendered</p>"))
       (lit "https://example.com")
     = Fetch.Returned (lit "<p>rendered</p>").
Proof.
  split_and!.
  - apply (proj1 (fetch_html_prefers_requests
                    (fun _ => Fetch.Returned
                                (Fetch.mkResponse 200 (lit "<a href=x>y</a>")))
                    (fun _ => Fetch.Raised
                                (Fetch.mkException (lit "TimeoutError") true))
                    (lit "https://example.com"))
             (Fetch.mkResponse 200 (lit "<a href=x>y</a>"))).
    + reflexivity.
    + left. cbn. lia.
  - apply (proj1 (proj2 (fetch_html_prefers_requests
                    (fun _ => Fetch.Returned (Fetch.mkResponse 503 (lit "busy")))
                    (fun _ => Fetch.Returned (lit "<p>rendered</p>"))
                    (lit "https://example.com")))
             (Fetch.mkResponse 503 (lit "busy"))).
    + reflexivity.
    + cbn. lia.
  - apply (proj2 (proj2 (fetch_html_prefers_requests
                    (fun _ => Fetch.Raised
                                (Fetch.mkException (lit "ConnectionError") true))
                    (fun _ => Fetch.Returned (lit "<p>rendered</p>"))
                    (lit "https://example.com")))
             (Fetch.mkException (lit "ConnectionError") true)).
    + reflexivity.
    + reflexivity.
Defined.

Lemma fetch_html_raises_inv_witness :
  (Fetch.Raised (Fetch.mkException (lit "TimeoutError") true)
   = Fetch.Raised (A := pystr) (Fetch.mkException (lit "TimeoutError") true)
   /\ ((exists e0,
          Fetch.Raised (A := Fetch.Response)
            (Fetch.mkException (lit "ConnectionError") true) = Fetch.Raised e0
          /\ Fetch.exc_is_Exception e0 = true)
       \/ (exists resp,
             Fetch.Raised (Fetch.mkException (lit "ConnectionError") true)
             = Fetch.Returned resp
             /\ (400 <= Fetch.status_code resp < 600)%Z)))
  \/ (Fetch.Raised (A := Fetch.Response)
        (Fetch.mkException (lit "ConnectionError") true)
      = Fetch.Raised (Fetch.mkException (lit "TimeoutError") true)
      /\ Fetch.exc_is_Exception (Fetch.mkException (lit "TimeoutError") true)
         = false).
Proof.
  apply (fetch_html_raises_inv
           (fun _ => Fetch.Raised (Fetch.mkException (lit "ConnectionError") true))
           (fun _ => Fetch.Raised (Fetch.mkException (lit "TimeoutError") true))
           (lit "https://example.com")).
  reflexivity.
Defined.

(** ** scrap.py: a run of [main] *)

Section MainFacts.
Import Scrap Fetch Main.
Variable session_get : pystr -> outcome Response.
Variable fetch_html_playwright : pystr -> outcome pystr.
Variable html_parser : pystr -> list node.
Implicit Types (w : world) (html : pystr) (items : list ControlItem).

Lemma page_path : lit "output" ++ lit "/" ++ lit "page.html" = PAGE_PATH.
Proof. by vm_compute. Qed.

Lemma inventory_path :
  lit "output" ++ lit "/" ++ lit "controls_inventory.json" = INVENTORY_PATH.
Proof. by vm_compute. Qed.

Lemma paths_distinct :
  PAGE_PATH <> INVENTORY_PATH
  /\ PAGE_PATH <> lit "output" /\ INVENTORY_PATH <> lit "output".
Proof. split_and!; by vm_compute. Qed.

Lemma makedirs_Returned d w w' :
  makedirs d w = (w', Returned tt)
  <-> (d ∉ dom (files w))
      /\ w' = mkWorld ({[d]} ∪ dirs w) (files w) (stdout w).
Proof.
  unfold makedirs. case_decide; split.
  - done.
  - by intros [? _].
  - by intros [= <-].
  - by intros [_ ->].
Qed.

Lemma makedirs_Raised d w w' e :
  makedirs d w = (w', Raised e) -> w' = w.
Proof. unfold makedirs. case_decide; [by intros [= <- _] | done]. Qed.

Lemma write_text_Returned d name content w w' :
  write_text d name content w = (w', Returned tt)
  <-> d ∈ dirs w /\ (d ++ lit "/" ++ name ∉ dirs w)
      /\ utf8_encodable content = true
      /\ w' = mkWorld (dirs w) (<[d ++ lit "/" ++ name := content]> (files w))
                (stdout w).
Proof.
  unfold write_text. cbv zeta.
  destruct (utf8_encodable content); repeat case_decide; split;
    try done; try (by intros [= <-]); try (by intros (? & ? & ? & ?)).
  by intros (_ & _ & _ & ->).
Qed.

Lemma makedirs_ok d w :
  d ∉ dom (files w) ->
  makedirs d w = (mkWorld ({[d]} ∪ dirs w) (files w) (stdout w), Returned tt).
Proof. intros H. by apply makedirs_Returned. Qed.

Lemma write_text_ok d name content w :
  d ∈ dirs w -> d ++ lit "/" ++ name ∉ dirs w ->
  utf8_encodable content = true ->
  write_text d name content w
  = (mkWorld (dirs w) (<[d ++ lit "/" ++ name := content]> (files w))
       (stdout w), Returned tt).
Proof. intros. by apply write_text_Returned. Qed.

Lemma write_text_frame d name content w w' o :
  write_text d name content w = (w', o) ->
  dirs w' = dirs w /\ stdout w' = stdout w
  /\ forall p, p <> d ++ lit "/" ++ name -> files w' !! p = files w !! p.
Proof.
  unfold write_text. cbv zeta.
  destruct (utf8_encodable content); repeat case_decide;
    intros [= <- _]; cbn [dirs files stdout]; split_and!; try done;
    intros p Hp; by rewrite lookup_insert_ne.
Qed.

Lemma main_Returned w w' :
  main session_get fetch_html_playwright html_parser w = (w', Returned tt)
  <-> exists html items,
        (lit "output" ∉ dom (files w))
        /\ (PAGE_PATH ∉ dirs w) /\ (INVENTORY_PATH ∉ dirs w)
        /\ fetch_html session_get fetch_html_playwright
             (lit "https://example.com") = Returned html
        /\ utf8_encodable html = true
        /\ extract_controls_inventory html_parser html 80 = Ok items
        /\ utf8_encodable (inventory_to_json items) = true
        /\ w' = mkWorld ({[lit "output"]} ∪ dirs w)
                  (<[INVENTORY_PATH := inventory_to_json items]>
                     (<[PAGE_PATH := html]> (files w)))
                  (stdout w
                   ++ [lit "Saved:"; lit " - output/page.html";
                       lit " - output/controls_inventory.json";
                       lit "Controls found: " ++ py_str_nat (length items)]).
Proof.
  destruct paths_distinct as (Hpi & Hpo & Hio).
  unfold main. cbv zeta. split.
  - destruct (makedirs (lit "output") w) as [w1 [[]|e]] eqn:E1; [|done].
    apply makedirs_Returned in E1 as [Hout ->].
    destruct (fetch_html _ _ _) as [html|e] eqn:E2; [|done].
    destruct (write_text _ _ html _) as [w2 [[]|e]] eqn:E3; [|done].
    apply write_text_Returned in E3 as (_ & Hpage & Hhtml & ->).
    rewrite page_path in Hpage |- *. cbn [dirs files stdout] in Hpage |- *.
    destruct (extract_controls_inventory _ _ _) as [items|e] eqn:E4; [|done].
    destruct (write_text _ _ (inventory_to_json items) _)
      as [w3 [[]|e]] eqn:E5; [|done].
    apply write_text_Returned in E5 as (_ & Hinv & Hjson & ->).
    rewrite inventory_path in Hinv |- *. cbn [dirs files stdout] in Hinv |- *.
    intros [= <-]. exists html, items. split_and!; try done.
    + set_solver.
    + set_solver.
    + unfold print. cbn [dirs files stdout].
      by rewrite <- !app_assoc.
  - intros (html & items & Hout & Hpage & Hinv & -> & Hhtml & -> & Hjson & ->).
    rewrite makedirs_ok by done.
    rewrite write_text_ok;
      [| cbn [dirs]; rewrite ?page_path; first [done | set_solver] ..].
    rewrite write_text_ok;
      [| cbn [dirs]; rewrite ?inventory_path; first [done | set_solver] ..].
    unfold print. cbn [dirs files stdout].
    rewrite page_path, inventory_path. by rewrite <- !app_assoc.
Qed.

(** X23: [main] returns exactly when nothing stands in its way:
    [output] is not a file, the two paths are not directories, the page
    is fetched, the page and the document can be encoded in UTF-8, and
    the extractor returns.  It then leaves the directory [output], the
    page and the document of the inventory in their files, and four
    lines printed, the last with the number of items. *)
Theorem main_returns_iff w w' :
  main session_get fetch_html_playwright html_parser w = (w', Returned tt)
  <-> exists html items,
        (lit "output" ∉ dom (files w))
        /\ (PAGE_PATH ∉ dirs w) /\ (INVENTORY_PATH ∉ dirs w)
        /\ fetch_html session_get fetch_html_playwright
             (lit "https://example.com") = Returned html
        /\ utf8_encodable html = true
        /\ extract_controls_inventory html_parser html 80 = Ok items
        /\ utf8_encodable (inventory_to_json items) = true
        /\ w' = mkWorld ({[lit "output"]} ∪ dirs w)
                  (<[INVENTORY_PATH := inventory_to_json items]>
                     (<[PAGE_PATH := html]> (files w)))
                  (stdout w
                   ++ [lit "Saved:"; lit " - output/page.html";
                       lit " - output/controls_inventory.json";
                       lit "Controls found: " ++ py_str_nat (length items)]).
Proof. apply main_Returned. Qed.

(** X24: after a run of [main] that returns, the file of the inventory
    holds a JSON document that parses to the very items the extractor
    found in the saved page, and the last line printed gives their
    number. *)
Theorem main_report_matches_files w w' :
  main session_get fetch_html_playwright html_parser w = (w', Returned tt) ->
  exists html doc items,
    files w' !! PAGE_PATH = Some html
    /\ files w' !! INVENTORY_PATH = Some doc
    /\ extract_controls_inventory html_parser html 80 = Ok items
    /\ loads doc ≫= items_of_json = Some items
    /\ last (stdout w')
       = Some (lit "Controls found: " ++ py_str_nat (length items)).
Proof.
  destruct paths_distinct as (Hpi & _ & _).
  intros (html & items & _ & _ & _ & _ & _ & Hex & _ & ->)%main_Returned.
  exists html, (inventory_to_json items), items. cbn [dirs files stdout].
  split_and!.
  - rewrite lookup_insert_ne by done. apply lookup_insert_eq.
  - apply lookup_insert_eq.
  - done.
  - eapply inventory_round_trip_wf, extract_items_wf, Hex.
  - by rewrite last_app.
Qed.

(** X25: whatever its outcome, [main] leaves every file other than its
    two alone, removes no directory and creates none but [output], and
    only adds to what is printed. *)
Theorem main_touches_only_its_files w w' o :
  main session_get fetch_html_playwright html_parser w = (w', o) ->
  (forall p, p <> PAGE_PATH -> p <> INVENTORY_PATH ->
     files w' !! p = files w !! p)
  /\ dirs w ⊆ dirs w' /\ dirs w' ⊆ {[lit "output"]} ∪ dirs w
  /\ stdout w `prefix_of` stdout w'.
Proof.
  unfold main. cbv zeta.
  destruct (makedirs (lit "output") w) as [w1 [[]|e]] eqn:E1.
  2:{ apply makedirs_Raised in E1 as ->. intros [= <- _].
      split_and!; [done | done | set_solver | done]. }
  apply makedirs_Returned in E1 as [Hout ->].
  destruct (fetch_html _ _ _) as [html|e] eqn:E2.
  2:{ intros [= <- _]. cbn [dirs files stdout].
      split_and!; [done | set_solver | set_solver | done]. }
  destruct (write_text _ _ html _) as [w2 [[]|e]] eqn:E3.
  2:{ intros [= <- _]. apply write_text_frame in E3 as (Hd & Hs & Hf).
      rewrite page_path in Hf. cbn [dirs files stdout] in *.
      rewrite Hd, Hs. split_and!; [by intros; apply Hf | set_solver | set_solver | done]. }
  apply write_text_frame in E3 as (Hd2 & Hs2 & Hf2).
  rewrite page_path in Hf2. cbn [dirs files stdout] in Hd2, Hs2, Hf2.
  destruct (extract_controls_inventory _ _ _) as [items|e] eqn:E4.
  2:{ intros [= <- _]. rewrite Hd2, Hs2.
      split_and!; [by intros; apply Hf2 | set_solver | set_solver | done]. }
  destruct (write_text _ _ (inventory_to_json items) _)
    as [w3 [[]|e]] eqn:E5;
    apply write_text_frame in E5 as (Hd3 & Hs3 & Hf3);
    rewrite inventory_path in Hf3; intros [= <- _];
    unfold print; cbn [dirs files stdout]; rewrite Hd3, Hs3, Hd2, Hs2.
  - split_and!.
    + intros p Hp1 Hp2. by rewrite Hf3, Hf2.
    + set_solver.
    + set_solver.
    + rewrite <- !app_assoc. by apply prefix_app_r.
  - split_and!.
    + intros p Hp1 Hp2. by rewrite Hf3, Hf2.
    + set_solver.
    + set_solver.
    + done.
Qed.

(** X26: a run of [main] that ends in an exception has printed
    nothing: the four lines appear only after both files are written. *)
Theorem main_prints_only_on_success w w' e :
  main session_get fetch_html_playwright html_parser w = (w', Raised e) ->
  stdout w' = stdout w.
Proof.
  unfold main. cbv zeta.
  destruct (makedirs (lit "output") w) as [w1 [[]|e1]] eqn:E1.
  2:{ apply makedirs_Raised in E1 as ->. by intros [= <- _]. }
  apply makedirs_Returned in E1 as [Hout ->].
  destruct (fetch_html _ _ _) as [html|e2] eqn:E2; [|by intros [= <- _]].
  destruct (write_text _ _ html _) as [w2 o2] eqn:E3.
  apply write_text_frame in E3 as (_ & Hs2 & _). cbn [stdout] in Hs2.
  destruct o2 as [[]|e3]; [|by intros [= <- _]].
  destruct (extract_controls_inventory _ _ _) as [items|e4] eqn:E4;
    [|by intros [= <- _]].
  destruct (write_text _ _ (inventory_to_json items) _) as [w3 o3] eqn:E5.
  apply write_text_frame in E5 as (_ & Hs3 & _).
  destruct o3 as [[]|e5]; [done|]. intros [= <- _]. congruence.
Qed.

(** X27: the page is saved before it is looked at.  When the fetch
    fails, [main] ends in the exception of the fetch with no file
    written; when the extractor raises, [main] ends in that exception
    with the page saved and the file of the inventory as it was, an
    inventory of an earlier run included. *)
Theorem main_saves_page_before_extraction w :
  lit "output" ∉ dom (files w) ->
  (forall e,
      fetch_html session_get fetch_html_playwright (lit "https://example.com")
      = Raised e ->
      main session_get fetch_html_playwright html_parser w
      = (mkWorld ({[lit "output"]} ∪ dirs w) (files w) (stdout w), Raised e))
  /\ (forall html e,
        fetch_html session_get fetch_html_playwright
          (lit "https://example.com") = Returned html ->
        PAGE_PATH ∉ dirs w -> utf8_encodable html = true ->
        extract_controls_inventory html_parser html 80 = Raise e ->
        main session_get fetch_html_playwright html_parser w
        = (mkWorld ({[lit "output"]} ∪ dirs w)
             (<[PAGE_PATH := html]> (files w)) (stdout w),
           Raised (exception_of e))).
Proof.
  destruct paths_distinct as (Hpi & Hpo & Hio).
  intros Hout. unfold main. cbv zeta.
  rewrite makedirs_ok by done.
  split.
  - by intros e ->.
  - intros html e -> Hpage Hhtml Hex.
    rewrite write_text_ok;
      [| cbn [dirs]; rewrite ?page_path; first [done | set_solver] ..].
    rewrite Hex. by rewrite page_path.
Qed.

End MainFacts.

Section MainRuns.
Import Scrap Fetch Main Runs.

Lemma answered_run_conditions :
  (lit "output" ∉ dom (files empty_world))
  /\ (PAGE_PATH ∉ dirs empty_world) /\ (INVENTORY_PATH ∉ dirs empty_world)
  /\ fetch_html answered no_browser (lit "https://example.com")
     = Returned page
  /\ utf8_encodable page = true
  /\ extract_controls_inventory parsed page 80 = Ok [Scenarios.link_item]
  /\ utf8_encodable (inventory_to_json [Scenarios.link_item]) = true.
Proof.
  split_and!; try reflexivity.
  - cbn [files empty_world]. rewrite dom_empty_L. apply not_elem_of_empty.
  - apply not_elem_of_empty.
  - apply not_elem_of_empty.
Qed.

Lemma answered_run :
  main answered no_browser parsed empty_world = (saved_world, Returned tt).
Proof.
  apply main_Returned. exists page, [Scenarios.link_item].
  destruct answered_run_conditions as (? & ? & ? & ? & ? & ? & ?).
  split_and!; done.
Qed.

Lemma refused_run :
  main refused no_browser parsed empty_world
  = (offline_world, Raised ConnectionError).
Proof.
  unfold main. cbv zeta. rewrite makedirs_ok; [done|].
  cbn [files empty_world]. rewrite dom_empty_L. apply not_elem_of_empty.
Qed.

Lemma main_returns_iff_witness :
  main answered no_browser parsed empty_world = (saved_world, Returned tt).
Proof.
  apply (proj2 (main_returns_iff answered no_browser parsed empty_world
                  saved_world)).
  exists page, [Scenarios.link_item].
  split_and!; try reflexivity.
  - cbn [files empty_world]. rewrite dom_empty_L. apply not_elem_of_empty.
  - apply not_elem_of_empty.
  - apply not_elem_of_empty.
Defined.

Lemma main_report_matches_files_witness :
  exists html doc items,
    files saved_world !! PAGE_PATH = Some html
    /\ files saved_world !! INVENTORY_PATH = Some doc
    /\ extract_controls_inventory parsed html 80 = Ok items
    /\ loads doc ≫= items_of_json = Some items
    /\ last (stdout saved_world)
       = Some (lit "Controls found: " ++ py_str_nat (length items)).
Proof.
  apply (main_report_matches_files answered no_browser parsed empty_world
           saved_world).
  apply answered_run.
Defined.

Lemma main_touches_only_its_files_witness :
  (forall p, p <> PAGE_PATH -> p <> INVENTORY_PATH ->
     files saved_world !! p = files empty_world !! p)
  /\ dirs empty_world ⊆ dirs saved_world
  /\ dirs saved_world ⊆ {[lit "output"]} ∪ dirs empty_world
  /\ stdout empty_world `prefix_of` stdout saved_world.
Proof.
  apply (main_touches_only_its_files answered no_browser parsed empty_world
           saved_world (Returned tt)).
  apply answered_run.
Defined.

Lemma main_prints_only_on_success_witness :
  stdout offline_world = stdout empty_world.
Proof.
  apply (main_prints_only_on_success refused no_browser parsed empty_world
           offline_world ConnectionError).
  apply refused_run.
Defined.

Lemma main_saves_page_before_extraction_witness :
  main refused no_browser parsed empty_world
  = (offline_world, Raised ConnectionError)
  /\ main answered no_browser (fun _ => Scenarios.list_valued_doc) empty_world
     = (mkWorld ({[lit "output"]} ∪ ∅) (<[PAGE_PATH := page]> ∅) [],
        Raised (exception_of AttributeError)).
Proof.
  assert (lit "output" ∉ dom (files empty_world)) as Hout.
  { cbn [files empty_world]. rewrite dom_empty_L. apply not_elem_of_empty. }
  split.
  - apply (proj1 (main_saves_page_before_extraction refused no_browser parsed
                    empty_world Hout) ConnectionError).
    reflexivity.
  - apply (proj2 (main_saves_page_before_extraction answered no_browser
                    (fun _ => Scenarios.list_valued_doc) empty_world Hout)
             page AttributeError).
    + reflexivity.
    + apply not_elem_of_empty.
    + reflexivity.
    + reflexivity.
Defined.

End MainRuns.
